(** * convex_hull_inter: volume of the intersection of per-class convex hulls

    Shallow embedding of [src/convex_hull_inter.py].  The function chains
    three library primitives (Qhull's [ConvexHull], HiGHS through
    [linprog], Qhull's [HalfspaceIntersection]) behind a sequence of
    guards, each of which ends the call with the sentinel [0.0].

    Modelling choices.
    - Python floats are idealised as exact rationals in lowest terms
      ([float := Qc]); NaN, infinities and rounding are outside the model.
    - numpy arrays carry their shape: the function inspects [ndim] and
      [shape] before it looks at any element.
    - The three library primitives are the fields of a record [scipy];
      every one of them may raise.  They are deterministic functions of
      their arguments (Qhull joggles with a fixed seed).
    - A run of the function yields the list of library calls it made and
      either a returned value or a raised exception. *)

From Stdlib Require Import QArith Qcanon ZArith String.
From stdpp Require Import base numbers list sorting gmap.

Open Scope Qc_scope.

(** ** Scalars, exceptions, arrays *)

Definition float : Type := Qc.

(** A decimal literal of the source. *)
Definition fl (q : Q) : float := Q2Qc q.

(** Subclasses of Python's [Exception] that occur in this program. *)
Inductive exn : Type :=
| IndexError
| TypeError
| ValueError
| QhullError.

Inductive outcome (A : Type) : Type :=
| Return (v : A)
| Raise (e : exn).
Arguments Return {A} v.
Arguments Raise {A} e.

(** An array of rank 0, 1, 2, or at least 3.  From rank 1 on, the array is
    the list of its entries along axis 0; a rank-2 array also records its
    number of columns, which an empty list of rows cannot tell. *)
Inductive ndarray (A : Type) : Type :=
| Arr0 (item : A)
| Arr1 (items : list A)
| Arr2 (ncols : nat) (rows : list (list A))
| ArrN (d1 d2 : nat) (ds : list nat) (blocks : list (list A)).
Arguments Arr0 {A} item.
Arguments Arr1 {A} items.
Arguments Arr2 {A} ncols rows.
Arguments ArrN {A} d1 d2 ds blocks.

Definition shape {A} (a : ndarray A) : list nat :=
  match a with
  | Arr0 _ => []
  | Arr1 items => [length items]
  | Arr2 ncols rows => [length rows; ncols]
  | ArrN d1 d2 ds blocks => length blocks :: d1 :: d2 :: ds
  end.

Definition ndim {A} (a : ndarray A) : nat := length (shape a).

(** [a.shape[i]]: indexing the shape tuple past its end raises. *)
Definition shape_at {A} (a : ndarray A) (i : nat) : outcome nat :=
  match shape a !! i with
  | Some d => Return d
  | None => Raise IndexError
  end.

(** [a.ravel()]: the elements in row-major order. *)
Definition ravel {A} (a : ndarray A) : list A :=
  match a with
  | Arr0 item => [item]
  | Arr1 items => items
  | Arr2 _ rows => concat rows
  | ArrN _ _ _ blocks => concat blocks
  end.

(** Entries of [l] at the positions where [mask] is true. *)
Fixpoint select {A} (l : list A) (mask : list bool) : list A :=
  match l, mask with
  | a :: l', b :: mask' => if b then a :: select l' mask' else select l' mask'
  | _, _ => []
  end.

(** [a[mask]] with a rank-1 boolean mask: a fresh array holding the selected
    entries along axis 0; numpy raises when the mask length differs from
    [a.shape[0]] or when [a] has rank 0. *)
Definition getitem_mask {A} (a : ndarray A) (mask : list bool)
  : outcome (ndarray A) :=
  match a with
  | Arr0 _ => Raise IndexError
  | Arr1 items =>
      if (length mask =? length items)%nat
      then Return (Arr1 (select items mask)) else Raise IndexError
  | Arr2 ncols rows =>
      if (length mask =? length rows)%nat
      then Return (Arr2 ncols (select rows mask)) else Raise IndexError
  | ArrN d1 d2 ds blocks =>
      if (length mask =? length blocks)%nat
      then Return (ArrN d1 d2 ds (select blocks mask)) else Raise IndexError
  end.

(** [y == label], elementwise. *)
Definition eq_mask (y : ndarray Z) (label : Z) : list bool :=
  map (λ v, (v =? label)%Z) (ravel y).

(** [np.unique]: the sorted distinct elements. *)
Fixpoint insert_label (v : Z) (l : list Z) : list Z :=
  match l with
  | [] => [v]
  | w :: l' =>
      match (v ?= w)%Z with
      | Lt => v :: l
      | Eq => l
      | Gt => w :: insert_label v l'
      end
  end.

Definition np_unique (y : ndarray Z) : list Z :=
  foldr insert_label [] (ravel y).

(** [l[:-1]] and [l[-1]] on a row; rows of a half-space system have
    [N+1 >= 1] entries. *)
Definition drop_last {A} (l : list A) : list A := take (length l - 1) l.

Definition last_entry (l : list float) : float := List.last l 0.

(** [a > b] on floats. *)
Definition float_gt (a b : float) : bool := bool_decide (b < a).

(** [l[-1] = v], in place. *)
Definition set_last {A} (v : A) (l : list A) : list A :=
  <[(length l - 1)%nat := v]> l.

(** ** The library *)

Record hull : Type := Hull {
  equations : list (list float);   (* one row [a_1 .. a_N, b] per facet *)
  volume : float
}.

Record OptimizeResult : Type := OptResult {
  res_success : bool;
  res_fun : float;
  res_x : list float
}.

Record halfspace_intersection : Type := HsInt {
  intersections : list (list float)    (* one row per vertex *)
}.

Record scipy : Type := Scipy {
  ConvexHull : ndarray float → string → outcome hull;
  linprog : list float → list (list float) → list float →
            option float * option float → string → outcome OptimizeResult;
  HalfspaceIntersection :
    list (list float) → list float → outcome halfspace_intersection
}.

(** ** Runs: call log plus outcome *)

Inductive call : Type :=
| CallConvexHull (points : ndarray float) (qhull_options : string)
| CallLinprog (c : list float) (A_ub : list (list float)) (b_ub : list float)
    (bounds : option float * option float) (method : string)
| CallHalfspaceIntersection (halfspaces : list (list float))
    (interior_point : list float).

Record run (A : Type) : Type := Run {
  calls : list call;
  result : outcome A
}.
Arguments Run {A} calls result.
Arguments calls {A} r.
Arguments result {A} r.

Definition ret {A} (v : A) : run A := Run [] (Return v).

Definition lift {A} (o : outcome A) : run A := Run [] o.

Definition bind {A B} (k : A → run B) (m : run A) : run B :=
  match result m with
  | Return v => Run (calls m ++ calls (k v)) (result (k v))
  | Raise e => Run (calls m) (Raise e)
  end.

#[global] Instance run_ret : MRet run := @ret.
#[global] Instance run_bind : MBind run := @bind.

(** [try: body / except Exception: handler], followed by [rest] when the
    body completes. *)
Definition try_except {A B} (body : run A) (handler : exn → run B)
    (rest : A → run B) : run B :=
  match result body with
  | Return v => Run (calls body ++ calls (rest v)) (result (rest v))
  | Raise e => Run (calls body ++ calls (handler e)) (result (handler e))
  end.

Section Pipeline.

Variable lib : scipy.

Definition call_ConvexHull (points : ndarray float) (opts : string) : run hull :=
  Run [CallConvexHull points opts] (ConvexHull lib points opts).

Definition call_linprog c A_ub b_ub bounds method : run OptimizeResult :=
  Run [CallLinprog c A_ub b_ub bounds method]
      (linprog lib c A_ub b_ub bounds method).

Definition call_HalfspaceIntersection halfspaces interior_point
  : run halfspace_intersection :=
  Run [CallHalfspaceIntersection halfspaces interior_point]
      (HalfspaceIntersection lib halfspaces interior_point).

(** Lines 113-129: vertex-count guard, final hull, scaling. *)
Definition volume_stage (num_dimensions : nat) (factor_k : float)
    (intersection_vertices : list (list float)) : run float :=
  if (length intersection_vertices <? num_dimensions + 1)%nat then ret 0
  else
    try_except
      (final_hull ← call_ConvexHull (Arr2 num_dimensions intersection_vertices) "QJ";
       ret (volume final_hull * (1 - factor_k)))
      (λ _, ret 0)
      ret.

(** Lines 105-111: vertex enumeration. *)
Definition vertex_stage (num_dimensions : nat) (factor_k : float)
    (halfspaces : list (list float)) (feasible_point : list float) : run float :=
  try_except
    (call_HalfspaceIntersection halfspaces feasible_point)
    (λ _, ret 0)
    (λ h_intersection,
       volume_stage num_dimensions factor_k (intersections h_intersection)).

(** Lines 83-103: the linear program; the call is not inside a [try]. *)
Definition lp_stage (num_dimensions : nat) (factor_k : float)
    (halfspaces : list (list float)) : run float :=
  let A := map drop_last halfspaces in
  let b := map (λ row, - last_entry row) halfspaces in
  let c_lp := set_last (-1) (replicate (num_dimensions + 1) 0) in
  let A_ub := map (λ row, row ++ [1]) A in
  let b_ub := b in
  res ← call_linprog c_lp A_ub b_ub (None, None) "highs-ipm";
  if negb (res_success res) || float_gt (res_fun res) (- fl 1e-9)
  then ret 0
  else vertex_stage num_dimensions factor_k halfspaces (drop_last (res_x res)).

(** Lines 50-70: the loop over the labels.  [inl v] stands for a [return v]
    executed inside the loop, [inr hs] for the list built when the loop
    runs to its end. *)
Fixpoint hull_stage (Q : ndarray float) (y : ndarray Z) (num_dimensions : nat)
    (labels : list Z) (all_halfspaces : list (list (list float)))
  : run (float + list (list (list float))) :=
  match labels with
  | [] => ret (inr all_halfspaces)
  | label :: labels' =>
      points ← lift (getitem_mask Q (eq_mask y label));
      n ← lift (shape_at points 0);
      if (n <? num_dimensions + 1)%nat then ret (inl 0)
      else
        try_except
          (h ← call_ConvexHull points "QJ";
           ret (all_halfspaces ++ [equations h]))
          (λ _, ret (inl 0))
          (λ all_halfspaces', hull_stage Q y num_dimensions labels' all_halfspaces')
  end.

Definition convex_hull_inter (Q : ndarray float) (y : ndarray Z)
    (factor_h : float) (factor_k : float) : run float :=
  if negb (ndim Q =? 2)%nat then ret 0 else
  if negb (ndim y =? 1)%nat then ret 0 else
  q0 ← lift (shape_at Q 0);
  y0 ← lift (shape_at y 0);
  if negb (q0 =? y0)%nat || (q0 =? 0)%nat then ret 0 else
  num_dimensions ← lift (shape_at Q 1);
  let unique_labels := np_unique y in
  if (length unique_labels <? 2)%nat then ret 0 else
  looped ← hull_stage Q y num_dimensions unique_labels [];
  match looped with
  | inl v => ret v
  | inr all_halfspaces =>
      let halfspaces := concat all_halfspaces in
      lp_stage num_dimensions factor_k halfspaces
  end.

End Pipeline.

(** ** A reference library for rectangles

    Exact answers of the three primitives on planar inputs whose geometry
    is an axis-parallel rectangle; used to evaluate the pipeline on
    concrete inputs.  Outside that family the hull engine reports
    [QhullError] and the solver reports failure through its status. *)
Module Rect.

Definition fmin (a b : float) : float := if bool_decide (a ≤ b) then a else b.
Definition fmax (a b : float) : float := if bool_decide (a ≤ b) then b else a.

Definition opt_merge (f : float → float → float) (v : float)
    (acc : option float) : option float :=
  Some (match acc with None => v | Some m => f v m end).

Definition minimum (l : list float) : option float := foldr (opt_merge fmin) None l.
Definition maximum (l : list float) : option float := foldr (opt_merge fmax) None l.

Definition coord (i : nat) (p : list float) : float := nth i p 0.

(** The rectangle [x0,x1] x [y0,y1], as facets [a.x + b <= 0]. *)
Definition rect_equations (x0 x1 y0 y1 : float) : list (list float) :=
  [[-1; 0; x0]; [0; -1; y0]; [1; 0; - x1]; [0; 1; - y1]].

Definition rect_vertices (x0 x1 y0 y1 : float) : list (list float) :=
  [[x0; y0]; [x1; y0]; [x1; y1]; [x0; y1]].

Definition ConvexHull (points : ndarray float) (opts : string) : outcome hull :=
  match points with
  | Arr2 2 rows =>
      match minimum (map (coord 0) rows), maximum (map (coord 0) rows),
            minimum (map (coord 1) rows), maximum (map (coord 1) rows) with
      | Some x0, Some x1, Some y0, Some y1 =>
          if bool_decide (x0 < x1) && bool_decide (y0 < y1)
             && forallb (λ c, bool_decide (c ∈ rows)) (rect_vertices x0 x1 y0 y1)
          then Return (Hull (rect_equations x0 x1 y0 y1) ((x1 - x0) * (y1 - y0)))
          else Raise QhullError
      | _, _, _, _ => Raise QhullError
      end
  | _ => Raise ValueError
  end.

(** Bounds read off a system of axis-parallel half-spaces. *)
Record box : Type := Box {
  lo_x : option float; hi_x : option float;
  lo_y : option float; hi_y : option float
}.

Definition add_halfspace (row : list float) (acc : option box) : option box :=
  match acc with
  | None => None
  | Some bx =>
      match row with
      | [a1; a2; b] =>
          if bool_decide (a1 = -1 ∧ a2 = 0)
          then Some (Box (opt_merge fmax b (lo_x bx)) (hi_x bx) (lo_y bx) (hi_y bx))
          else if bool_decide (a1 = 1 ∧ a2 = 0)
          then Some (Box (lo_x bx) (opt_merge fmin (- b) (hi_x bx)) (lo_y bx) (hi_y bx))
          else if bool_decide (a1 = 0 ∧ a2 = -1)
          then Some (Box (lo_x bx) (hi_x bx) (opt_merge fmax b (lo_y bx)) (hi_y bx))
          else if bool_decide (a1 = 0 ∧ a2 = 1)
          then Some (Box (lo_x bx) (hi_x bx) (lo_y bx) (opt_merge fmin (- b) (hi_y bx)))
          else None
      | _ => None
      end
  end.

Definition box_of (halfspaces : list (list float)) : option box :=
  foldr add_halfspace (Some (Box None None None None)) halfspaces.

Definition failed : OptimizeResult := OptResult false 0 [].

(** Maximise [t] subject to [a.x + t <= b] for axis-parallel rows: the
    optimum is half the smaller side of the box, attained at its centre. *)
Definition linprog (c : list float) (A_ub : list (list float)) (b_ub : list float)
    (bounds : option float * option float) (method : string)
  : outcome OptimizeResult :=
  if negb (bool_decide (c = [0; 0; -1]))
     || negb (forallb (λ row, bool_decide (List.last row 0 = 1)) A_ub)
  then Return failed
  else
    match box_of (zip_with (λ row b, drop_last row ++ [- b]) A_ub b_ub) with
    | Some (Box (Some x0) (Some x1) (Some y0) (Some y1)) =>
        let t := fmin ((x1 - x0) / 2) ((y1 - y0) / 2) in
        Return (OptResult true (- t) [(x0 + x1) / 2; (y0 + y1) / 2; t])
    | _ => Return failed
    end.

Definition HalfspaceIntersection (halfspaces : list (list float))
    (interior_point : list float) : outcome halfspace_intersection :=
  match box_of halfspaces with
  | Some (Box (Some x0) (Some x1) (Some y0) (Some y1)) =>
      if bool_decide (x0 < coord 0 interior_point) && bool_decide (coord 0 interior_point < x1)
         && bool_decide (y0 < coord 1 interior_point) && bool_decide (coord 1 interior_point < y1)
      then Return (HsInt (rect_vertices x0 x1 y0 y1))
      else Raise QhullError
  | _ => Raise QhullError
  end.

Definition lib : scipy := Scipy ConvexHull linprog HalfspaceIntersection.

(** Two unit squares, the second shifted right by [dx]; rows alternate
    between the classes. *)
Definition squares (dx : float) : ndarray float :=
  Arr2 2 [[0; 0]; [dx; 0]; [1; 0]; [dx + 1; 0];
          [1; 1]; [dx + 1; 1]; [0; 1]; [dx; 1]].

Definition labels : ndarray Z := Arr1 [0; 1; 0; 1; 0; 1; 0; 1]%Z.

(** What the loop over the two classes requests and stacks on them. *)
Definition class_calls (dx : float) : list call :=
  [CallConvexHull (Arr2 2 [[0; 0]; [1; 0]; [1; 1]; [0; 1]]) "QJ";
   CallConvexHull (Arr2 2 [[dx; 0]; [dx + 1; 0]; [dx + 1; 1]; [dx; 1]]) "QJ"].

Definition stacked (dx : float) : list (list float) :=
  rect_equations 0 1 0 1 ++ rect_equations dx (dx + 1) 0 1.

End Rect.


(** ** Stage predicates used to state the claims *)

(** The shape checks of line 34 and the label count of line 44 pass, with
    [N] the number of columns of [Q]. *)
Definition validated (Q : ndarray float) (y : ndarray Z) (N : nat) : Prop :=
  ∃ rows ys, Q = Arr2 N rows ∧ y = Arr1 ys ∧
    length rows = length ys ∧ length rows ≠ 0%nat ∧
    (2 ≤ length (np_unique y))%nat.

(** The loop of lines 51-70 ran to its end: it made the calls [cs] and
    stacked the half-space system [halfspaces]. *)
Definition hulls_built (lib : scipy) (Q : ndarray float) (y : ndarray Z)
    (N : nat) (cs : list call) (halfspaces : list (list float)) : Prop :=
  validated Q y N ∧
  ∃ all_halfspaces,
    hull_stage lib Q y N (np_unique y) [] = Run cs (Return (inr all_halfspaces)) ∧
    halfspaces = concat all_halfspaces.

(** The points of one class: [Q[y == label]] on well-shaped inputs. *)
Definition class_rows (rows : list (list float)) (ys : list Z) (label : Z)
  : list (list float) :=
  select rows (map (λ v, (v =? label)%Z) ys).

(** The arguments of the [linprog] call of line 95. *)
Definition lp_c (N : nat) : list float := set_last (-1) (replicate (N + 1) 0).
Definition lp_A_ub (halfspaces : list (list float)) : list (list float) :=
  map (λ row, row ++ [1]) (map drop_last halfspaces).
Definition lp_b_ub (halfspaces : list (list float)) : list float :=
  map (λ row, - last_entry row) halfspaces.

Definition solve_lp (lib : scipy) (N : nat) (halfspaces : list (list float))
  : outcome OptimizeResult :=
  linprog lib (lp_c N) (lp_A_ub halfspaces) (lp_b_ub halfspaces)
    (None, None) "highs-ipm".

Definition lp_call (N : nat) (halfspaces : list (list float)) : call :=
  CallLinprog (lp_c N) (lp_A_ub halfspaces) (lp_b_ub halfspaces)
    (None, None) "highs-ipm".

(** All five gates pass: the vertices [vertices] are enumerated and their
    hull [final_hull] is built. *)
Definition success_path (lib : scipy) (Q : ndarray float) (y : ndarray Z)
    (N : nat) (vertices : list (list float)) (final_hull : hull) : Prop :=
  ∃ cs halfspaces res h_intersection,
    hulls_built lib Q y N cs halfspaces ∧
    solve_lp lib N halfspaces = Return res ∧
    res_success res = true ∧ res_fun res ≤ - fl 1e-9 ∧
    HalfspaceIntersection lib halfspaces (drop_last (res_x res))
      = Return h_intersection ∧
    vertices = intersections h_intersection ∧
    (N + 1 ≤ length vertices)%nat ∧
    ConvexHull lib (Arr2 N vertices) "QJ" = Return final_hull.




(** Variants of the reference library used to evaluate single guards. *)

(** A solver whose call raises instead of reporting a status. *)
Definition raising_linprog (c : list float) (A_ub : list (list float))
    (b_ub : list float) (bounds : option float * option float)
    (method : string) : outcome OptimizeResult :=
  Raise ValueError.

Definition raising_lib : scipy :=
  Scipy Rect.ConvexHull raising_linprog Rect.HalfspaceIntersection.

(** A vertex enumeration that lists one corner twice and stops after three
    rows. *)
Definition repeating_HalfspaceIntersection (halfspaces : list (list float))
    (interior_point : list float) : outcome halfspace_intersection :=
  match Rect.HalfspaceIntersection halfspaces interior_point with
  | Return (HsInt (v :: w :: _)) => Return (HsInt [v; v; w])
  | other => other
  end.

Definition repeating_lib : scipy :=
  Scipy Rect.ConvexHull Rect.linprog repeating_HalfspaceIntersection.

(** A vertex enumeration that stops after two rows. *)
Definition truncating_HalfspaceIntersection (halfspaces : list (list float))
    (interior_point : list float) : outcome halfspace_intersection :=
  match Rect.HalfspaceIntersection halfspaces interior_point with
  | Return (HsInt vs) => Return (HsInt (take 2 vs))
  | Raise e => Raise e
  end.

Definition truncating_lib : scipy :=
  Scipy Rect.ConvexHull Rect.linprog truncating_HalfspaceIntersection.

(** ** Arrays as objects in a store

    The same function over references, to speak about mutation: arrays
    live in a store, objects are numbered in allocation order, the
    arguments [Q] and [y] are locations.  A library call receives
    references; it reads its arguments and may overwrite their buffers
    ([scribble] stands for whatever it leaves there).  numpy operations
    that build a new array ([Q[mask]], [np.vstack], [np.hstack],
    unary minus, [np.zeros]) allocate. *)
Module Store.

Inductive object : Type :=
| FloatArray (a : ndarray float)
| IntArray (a : ndarray Z).

Abbreviation loc := nat (only parsing).
Abbreviation store := (list object) (only parsing).

Definition St (A : Type) : Type := store → outcome A * store.

Definition st_ret {A} (v : A) : St A := λ h, (Return v, h).

Definition st_bind {A B} (k : A → St B) (m : St A) : St B :=
  λ h, match m h with
       | (Return v, h') => k v h'
       | (Raise e, h') => (Raise e, h')
       end.

#[global] Instance St_ret : MRet St := @st_ret.
#[global] Instance St_bind : MBind St := @st_bind.

Definition st_lift {A} (o : outcome A) : St A := λ h, (o, h).

Definition st_try {A B} (body : St A) (handler : exn → St B)
    (rest : A → St B) : St B :=
  λ h, match body h with
       | (Return v, h') => rest v h'
       | (Raise e, h') => handler e h'
       end.

Definition load_float (l : loc) : St (ndarray float) :=
  λ h, match h !! l with
       | Some (FloatArray a) => (Return a, h)
       | _ => (Raise TypeError, h)
       end.

Definition load_int (l : loc) : St (ndarray Z) :=
  λ h, match h !! l with
       | Some (IntArray a) => (Return a, h)
       | _ => (Raise TypeError, h)
       end.

Definition alloc (o : object) : St loc := λ h, (Return (length h), h ++ [o]).

Definition write (l : loc) (o : object) : St unit :=
  λ h, (Return tt, <[l := o]> h).

Definition rows_of (a : ndarray float) : list (list float) :=
  match a with Arr2 _ rows => rows | _ => [] end.

Definition items_of (a : ndarray float) : list float :=
  match a with Arr1 items => items | _ => [] end.

Section Pipeline.

Variable lib : scipy.
Variable scribble : ndarray float → ndarray float.

Definition st_ConvexHull (points : loc) (opts : string) : St hull :=
  λ h, match h !! points with
       | Some (FloatArray a) =>
           (ConvexHull lib a opts, <[points := FloatArray (scribble a)]> h)
       | _ => (Raise TypeError, h)
       end.

Definition st_linprog (c A_ub b_ub : loc) (bounds : option float * option float)
    (method : string) : St OptimizeResult :=
  λ h, match h !! c, h !! A_ub, h !! b_ub with
       | Some (FloatArray cv), Some (FloatArray Av), Some (FloatArray bv) =>
           (linprog lib (items_of cv) (rows_of Av) (items_of bv) bounds method,
            <[b_ub := FloatArray (scribble bv)]>
              (<[A_ub := FloatArray (scribble Av)]>
                 (<[c := FloatArray (scribble cv)]> h)))
       | _, _, _ => (Raise TypeError, h)
       end.

Definition st_HalfspaceIntersection (halfspaces interior_point : loc)
  : St halfspace_intersection :=
  λ h, match h !! halfspaces, h !! interior_point with
       | Some (FloatArray hv), Some (FloatArray pv) =>
           (HalfspaceIntersection lib (rows_of hv) (items_of pv),
            <[interior_point := FloatArray (scribble pv)]>
              (<[halfspaces := FloatArray (scribble hv)]> h))
       | _, _ => (Raise TypeError, h)
       end.

Definition volume_stage_st (num_dimensions : nat) (factor_k : float)
    (intersection_vertices : loc) : St float :=
  v ← load_float intersection_vertices;
  n ← st_lift (shape_at v 0);
  if (n <? num_dimensions + 1)%nat then mret 0
  else
    st_try
      (final_hull ← st_ConvexHull intersection_vertices "QJ";
       mret (volume final_hull * (1 - factor_k)))
      (λ _, mret 0)
      mret.

Definition vertex_stage_st (num_dimensions : nat) (factor_k : float)
    (halfspaces feasible_point : loc) : St float :=
  st_try
    (st_HalfspaceIntersection halfspaces feasible_point)
    (λ _, mret 0)
    (λ h_intersection,
       intersection_vertices ←
         alloc (FloatArray (Arr2 num_dimensions (intersections h_intersection)));
       volume_stage_st num_dimensions factor_k intersection_vertices).

Definition lp_stage_st (num_dimensions : nat) (factor_k : float)
    (halfspaces : loc) : St float :=
  (* [A = halfspaces[:, :-1]] is a view of [halfspaces] *)
  hv ← load_float halfspaces;
  b ← alloc (FloatArray (Arr1 (map (λ row, - last_entry row) (rows_of hv))));
  c_lp ← alloc (FloatArray (Arr1 (replicate (num_dimensions + 1) 0)));
  cv ← load_float c_lp;
  _ ← write c_lp (FloatArray (Arr1 (set_last (-1) (items_of cv))));
  hv' ← load_float halfspaces;
  A_ub ← alloc (FloatArray (Arr2 (num_dimensions + 1)
                   (map (λ row, row ++ [1]) (map drop_last (rows_of hv')))));
  let b_ub := b in
  res ← st_linprog c_lp A_ub b_ub (None, None) "highs-ipm";
  if negb (res_success res) || float_gt (res_fun res) (- fl 1e-9)
  then mret 0
  else
    (* [res.x[:-1]] is a view of the solver's array *)
    feasible_point ← alloc (FloatArray (Arr1 (drop_last (res_x res))));
    vertex_stage_st num_dimensions factor_k halfspaces feasible_point.

Fixpoint hull_stage_st (Q y : loc) (num_dimensions : nat) (labels : list Z)
    (all_halfspaces : list (list (list float)))
  : St (float + list (list (list float))) :=
  match labels with
  | [] => mret (inr all_halfspaces)
  | label :: labels' =>
      Qv ← load_float Q;
      yv ← load_int y;
      selected ← st_lift (getitem_mask Qv (eq_mask yv label));
      points ← alloc (FloatArray selected);
      pv ← load_float points;
      n ← st_lift (shape_at pv 0);
      if (n <? num_dimensions + 1)%nat then mret (inl 0)
      else
        st_try
          (h ← st_ConvexHull points "QJ";
           mret (all_halfspaces ++ [equations h]))
          (λ _, mret (inl 0))
          (λ all_halfspaces',
             hull_stage_st Q y num_dimensions labels' all_halfspaces')
  end.

Definition convex_hull_inter_st (Q y : loc) (factor_h factor_k : float)
  : St float :=
  Qv ← load_float Q;
  yv ← load_int y;
  if negb (ndim Qv =? 2)%nat then mret 0 else
  if negb (ndim yv =? 1)%nat then mret 0 else
  q0 ← st_lift (shape_at Qv 0);
  y0 ← st_lift (shape_at yv 0);
  if negb (q0 =? y0)%nat || (q0 =? 0)%nat then mret 0 else
  num_dimensions ← st_lift (shape_at Qv 1);
  yv' ← load_int y;
  let unique_labels := np_unique yv' in
  if (length unique_labels <? 2)%nat then mret 0 else
  looped ← hull_stage_st Q y num_dimensions unique_labels [];
  match looped with
  | inl v => mret v
  | inr all_halfspaces =>
      halfspaces ← alloc (FloatArray (Arr2 (num_dimensions + 1)
                            (concat all_halfspaces)));
      lp_stage_st num_dimensions factor_k halfspaces
  end.

End Pipeline.

(** Every object below address [n] is the same in [h'] as in [h]. *)
Definition unchanged_below (n : nat) (h h' : store) : Prop :=
  take n h' = take n h ∧ (n ≤ length h')%nat.

End Store.

(** ** Definitions used to state further properties *)

(** [u @ v], as [linprog] evaluates its objective and constraint rows. *)
Fixpoint dot (u v : list float) : float :=
  match u, v with
  | a :: u', b :: v' => a * b + dot u' v'
  | _, _ => 0
  end.

(** Elementwise application of [f] to an array (a relabelling of [y]). *)
Definition amap {A B} (f : A → B) (a : ndarray A) : ndarray B :=
  match a with
  | Arr0 item => Arr0 (f item)
  | Arr1 items => Arr1 (map f items)
  | Arr2 ncols rows => Arr2 ncols (map (map f) rows)
  | ArrN d1 d2 ds blocks => ArrN d1 d2 ds (map (map f) blocks)
  end.

(** The library calls that are hull constructions with joggling. *)
Definition is_joggled_hull (c : call) : Prop :=
  ∃ points, c = CallConvexHull points "QJ".

(** A vertex enumeration that always fails. *)
Definition failing_HalfspaceIntersection (halfspaces : list (list float))
    (interior_point : list float) : outcome halfspace_intersection :=
  Raise QhullError.

Definition failing_enumeration_lib : scipy :=
  Scipy Rect.ConvexHull Rect.linprog failing_HalfspaceIntersection.

(** ** Basic facts about runs *)

Section RunFacts.
Context {A B : Type}.

Lemma bind_Return (m : run A) (k : A → run B) v :
  result m = Return v →
  m ≫= k = Run (calls m ++ calls (k v)) (result (k v)).
Proof. intros H. unfold mbind, run_bind, bind. by rewrite H. Qed.

Lemma bind_Raise (m : run A) (k : A → run B) e :
  result m = Raise e → m ≫= k = Run (calls m) (Raise e).
Proof. intros H. unfold mbind, run_bind, bind. by rewrite H. Qed.

Lemma bind_lift_Return (v : A) (k : A → run B) :
  lift (Return v) ≫= k = k v.
Proof. unfold mbind, run_bind, bind. simpl. by destruct (k v). Qed.

Lemma bind_lift_Raise e (k : A → run B) :
  lift (Raise e) ≫= k = Run [] (Raise e).
Proof. reflexivity. Qed.

Lemma result_bind (m : run A) (k : A → run B) :
  result (m ≫= k) =
  match result m with Return v => result (k v) | Raise e => Raise e end.
Proof. unfold mbind, run_bind, bind. by destruct (result m). Qed.

Lemma result_try_except (body : run A) (handler : exn → run B) (rest : A → run B) :
  result (try_except body handler rest) =
  match result body with
  | Return v => result (rest v)
  | Raise e => result (handler e)
  end.
Proof. unfold try_except. by destruct (result body). Qed.

End RunFacts.

(** ** Facts about [np_unique] *)

Lemma elem_of_insert_label x v l : x ∈ insert_label v l ↔ x = v ∨ x ∈ l.
Proof.
  induction l as [|w l IH]; simpl.
  - rewrite list_elem_of_singleton, elem_of_nil. tauto.
  - destruct (Z.compare_spec v w) as [->| |]; rewrite ?elem_of_cons, ?IH; tauto.
Qed.

Lemma elem_of_unique_labels x l : x ∈ foldr insert_label [] l ↔ x ∈ l.
Proof.
  induction l as [|a l IH]; simpl; [done|].
  by rewrite elem_of_insert_label, IH, elem_of_cons.
Qed.



(** Fewer than two distinct values give fewer than two unique labels. *)
Lemma unique_labels_all_equal l :
  (∀ a b, a ∈ l → b ∈ l → a = b) → (length (foldr insert_label [] l) < 2)%nat.
Proof.
  induction l as [|a l IH]; intros Hall; simpl; [lia|].
  assert (Hl : ∀ u v, u ∈ l → v ∈ l → u = v)
    by (intros; apply Hall; by apply list_elem_of_further).
  specialize (IH Hl).
  destruct (foldr insert_label [] l) as [|w [|w' t]] eqn:E; simpl in *; try lia.
  assert (w ∈ l) by (apply elem_of_unique_labels; rewrite E; apply list_elem_of_here).
  assert (a = w)
    by (apply Hall; [apply list_elem_of_here | by apply list_elem_of_further]).
  subst. rewrite Z.compare_refl. simpl. lia.
Qed.

(** ** The stages, one step at a time *)

Section Stages.
Variable lib : scipy.

Lemma getitem_mask_class N rows ys label :
  length rows = length ys →
  getitem_mask (Arr2 N rows) (eq_mask (Arr1 ys) label)
  = Return (Arr2 N (class_rows rows ys label)).
Proof.
  intros Hlen. unfold getitem_mask, eq_mask, class_rows. simpl.
  rewrite length_map, <- Hlen, Nat.eqb_refl. done.
Qed.

Lemma volume_stage_few N k vs :
  (length vs < N + 1)%nat → volume_stage lib N k vs = Run [] (Return 0).
Proof.
  intros H. unfold volume_stage.
  apply Nat.ltb_lt in H. by rewrite H.
Qed.

Lemma volume_stage_enough N k vs :
  (N + 1 ≤ length vs)%nat →
  volume_stage lib N k vs =
  Run [CallConvexHull (Arr2 N vs) "QJ"]
      (match ConvexHull lib (Arr2 N vs) "QJ" with
       | Return final_hull => Return (volume final_hull * (1 - k))
       | Raise _ => Return 0
       end).
Proof.
  intros H. unfold volume_stage.
  apply Nat.ltb_ge in H. rewrite H.
  unfold try_except, mbind, run_bind, bind, call_ConvexHull. simpl.
  by destruct (ConvexHull lib (Arr2 N vs) "QJ").
Qed.

Lemma vertex_stage_eq N k hs p :
  vertex_stage lib N k hs p =
  match HalfspaceIntersection lib hs p with
  | Return h_intersection =>
      Run (CallHalfspaceIntersection hs p
             :: calls (volume_stage lib N k (intersections h_intersection)))
          (result (volume_stage lib N k (intersections h_intersection)))
  | Raise _ => Run [CallHalfspaceIntersection hs p] (Return 0)
  end.
Proof.
  unfold vertex_stage, try_except, call_HalfspaceIntersection. simpl.
  by destruct (HalfspaceIntersection lib hs p).
Qed.

Lemma lp_stage_eq N k hs :
  lp_stage lib N k hs =
  match solve_lp lib N hs with
  | Return res =>
      if negb (res_success res) || float_gt (res_fun res) (- fl 1e-9)
      then Run [lp_call N hs] (Return 0)
      else Run (lp_call N hs :: calls (vertex_stage lib N k hs (drop_last (res_x res))))
               (result (vertex_stage lib N k hs (drop_last (res_x res))))
  | Raise e => Run [lp_call N hs] (Raise e)
  end.
Proof.
  unfold lp_stage, solve_lp, lp_call, lp_c, lp_A_ub, lp_b_ub.
  unfold mbind, run_bind, bind, call_linprog. simpl.
  destruct (linprog lib _ _ _ _ _) as [res|e]; [|done].
  by destruct (negb (res_success res) || float_gt (res_fun res) (- fl 1e-9)).
Qed.

Lemma hull_stage_cons N rows ys N' label labels acc :
  length rows = length ys →
  hull_stage lib (Arr2 N rows) (Arr1 ys) N' (label :: labels) acc =
  let points := Arr2 N (class_rows rows ys label) in
  if (length (class_rows rows ys label) <? N' + 1)%nat
  then Run [] (Return (inl 0))
  else
    match ConvexHull lib points "QJ" with
    | Return h =>
        let rest := hull_stage lib (Arr2 N rows) (Arr1 ys) N' labels
                      (acc ++ [equations h]) in
        Run (CallConvexHull points "QJ" :: calls rest) (result rest)
    | Raise _ => Run [CallConvexHull points "QJ"] (Return (inl 0))
    end.
Proof.
  intros Hlen. cbn [hull_stage].
  rewrite getitem_mask_class by done.
  rewrite bind_lift_Return. cbn [shape_at shape lookup list_lookup].
  rewrite bind_lift_Return.
  destruct (length (class_rows rows ys label) <? N' + 1)%nat; [done|].
  unfold try_except, mbind, run_bind, bind, call_ConvexHull. cbn [result calls].
  by destruct (ConvexHull lib _ _).
Qed.

(** The loop never raises, and every hull it requests is for a class with
    at least [N'+1] points. *)
Lemma hull_stage_sound N rows ys N' labels acc :
  length rows = length ys →
  let r := hull_stage lib (Arr2 N rows) (Arr1 ys) N' labels acc in
  (∃ v, result r = Return v) ∧
  Forall (λ c, ∃ label, label ∈ labels ∧
                 c = CallConvexHull (Arr2 N (class_rows rows ys label)) "QJ" ∧
                 (N' + 1 ≤ length (class_rows rows ys label))%nat)
         (calls r).
Proof.
  intros Hlen. revert acc. induction labels as [|label labels IH]; intros acc r.
  - subst r. simpl. split; [by eexists | constructor].
  - subst r. rewrite hull_stage_cons by done. cbv zeta.
    destruct (length (class_rows rows ys label) <? N' + 1)%nat eqn:Hn.
    { split; [by eexists | constructor]. }
    apply Nat.ltb_ge in Hn.
    assert (Hhere : ∃ l, l ∈ label :: labels ∧
              CallConvexHull (Arr2 N (class_rows rows ys label)) "QJ"
              = CallConvexHull (Arr2 N (class_rows rows ys l)) "QJ" ∧
              (N' + 1 ≤ length (class_rows rows ys l))%nat).
    { exists label. split; [apply list_elem_of_here | done]. }
    destruct (ConvexHull lib _ _) as [h|e]; cbn [result calls].
    + destruct (IH (acc ++ [equations h])) as [Hv Hc]. split; [done|].
      constructor; [done|].
      eapply Forall_impl; [exact Hc|].
      intros c (l & Hl & ? & ?). exists l. split; [by apply list_elem_of_further | done].
    + split; [by eexists|]. by repeat constructor.
Qed.


(** The function after its shape and label-count checks. *)
Lemma convex_hull_inter_validated Q y N h k :
  validated Q y N →
  convex_hull_inter lib Q y h k =
  (hull_stage lib Q y N (np_unique y) [] ≫= λ looped,
     match looped with
     | inl v => ret v
     | inr all_halfspaces => lp_stage lib N k (concat all_halfspaces)
     end).
Proof.
  intros (rows & ys & -> & -> & Hlen & Hne & Huniq).
  unfold convex_hull_inter. cbn [ndim shape length Nat.eqb negb].
  cbn [shape_at shape lookup list_lookup]. rewrite !bind_lift_Return.
  rewrite <- Hlen, Nat.eqb_refl. cbn [negb orb].
  destruct (length rows =? 0)%nat eqn:E; [apply Nat.eqb_eq in E; lia|].
  rewrite ?bind_lift_Return.
  destruct (length (np_unique (Arr1 ys)) <? 2)%nat eqn:E2;
    [apply Nat.ltb_lt in E2; lia|].
  done.
Qed.

(** Any failed check of lines 34-45 ends the call at once. *)
Lemma convex_hull_inter_rejected Q y h k :
  (∀ N, ¬ validated Q y N) →
  convex_hull_inter lib Q y h k = Run [] (Return 0).
Proof.
  intros Hrej.
  destruct Q as [?|?|N rows|? ? ? ?]; try reflexivity.
  destruct y as [?|ys|? ?|? ? ? ?]; try reflexivity.
  unfold convex_hull_inter. cbn [ndim shape length Nat.eqb negb].
  cbn [shape_at shape lookup list_lookup]. rewrite !bind_lift_Return.
  destruct (length rows =? length ys)%nat eqn:E1; [|done]. cbn [negb orb].
  destruct (length rows =? 0)%nat eqn:E2; [done|].
  rewrite ?bind_lift_Return.
  destruct (length (np_unique (Arr1 ys)) <? 2)%nat eqn:E3; [done|].
  exfalso. apply (Hrej N). exists rows, ys.
  apply Nat.eqb_eq in E1. apply Nat.eqb_neq in E2. apply Nat.ltb_ge in E3.
  done.
Qed.

End Stages.

(** ** Claims about the guards *)

Lemma validated_dec Q y N : Decision (validated Q y N).
Proof.
  destruct Q as [?|?|N' rows|? ? ? ?];
    try (right; intros (? & ? & ? & _); discriminate).
  destruct y as [?|ys|? ?|? ? ? ?];
    try (right; intros (? & ? & _ & ? & _); discriminate).
  destruct (decide (N' = N ∧ length rows = length ys ∧ length rows ≠ 0%nat
                    ∧ (2 ≤ length (np_unique (Arr1 ys)))%nat)) as [H|H].
  - left. destruct H as (-> & ? & ? & ?). by exists rows, ys.
  - right. intros (rows' & ys' & HQ & Hy & ? & ? & ?).
    injection HQ as -> ->. injection Hy as ->. by apply H.
Qed.

(** C3: if [Q] is not 2-dimensional, or [y] is not 1-dimensional, or their
    leading dimensions differ, or [Q] has zero rows, or [y] holds fewer than
    two distinct labels, then [convex_hull_inter] returns [0.0] at once: no
    library call is made. *)
Theorem C3_invalid_input_returns_zero (lib : scipy) (Q : ndarray float)
    (y : ndarray Z) (factor_h factor_k : float) :
  ndim Q ≠ 2%nat ∨ ndim y ≠ 1%nat ∨
  shape Q !! 0%nat ≠ shape y !! 0%nat ∨
  shape Q !! 0%nat = Some 0%nat ∨
  (∀ a b, a ∈ ravel y → b ∈ ravel y → a = b) →
  convex_hull_inter lib Q y factor_h factor_k = Run [] (Return 0).
Proof.
  intros H. apply convex_hull_inter_rejected.
  intros N (rows & ys & -> & -> & Hlen & Hne & Huniq).
  destruct H as [H|[H|[H|[H|H]]]]; simpl in H.
  - by apply H.
  - by apply H.
  - apply H. by rewrite Hlen.
  - injection H as H. by apply Hne.
  - apply unique_labels_all_equal in H. unfold np_unique in Huniq. simpl in Huniq. lia.
Qed.


(** C8: the run does not depend on [factor_h]. *)
Theorem C8_factor_h_unused (lib : scipy) (Q : ndarray float) (y : ndarray Z)
    (factor_h factor_h' factor_k : float) :
  convex_hull_inter lib Q y factor_h factor_k
  = convex_hull_inter lib Q y factor_h' factor_k.
Proof. reflexivity. Qed.

(** ** From the loop to the result *)

Section Results.
Variable lib : scipy.

Lemma validated_or_rejected Q y :
  (∃ N, validated Q y N) ∨ (∀ N, ¬ validated Q y N).
Proof.
  destruct Q as [?|?|N rows|? ? ? ?];
    try (right; intros N (? & ? & ? & _); discriminate).
  destruct (validated_dec (Arr2 N rows) y N) as [H|H]; [left; by exists N|].
  right. intros N' Hv. apply H.
  destruct Hv as (rows' & ys' & HQ & Hy & H'). injection HQ as -> ->.
  by exists rows', ys'.
Qed.

(** A [return] inside the loop always returns [0.0]. *)
Lemma hull_stage_inl N rows ys N' labels acc v :
  length rows = length ys →
  result (hull_stage lib (Arr2 N rows) (Arr1 ys) N' labels acc) = Return (inl v) →
  v = 0.
Proof.
  intros Hlen. revert acc. induction labels as [|l labels IH]; intros acc.
  - simpl. discriminate.
  - rewrite hull_stage_cons by done. cbv zeta.
    destruct (length (class_rows rows ys l) <? N' + 1)%nat; [by intros [= <-]|].
    destruct (ConvexHull lib _ _); cbn [result]; [apply IH | by intros [= <-]].
Qed.

Lemma reach_lp Q y N cs hs h k :
  hulls_built lib Q y N cs hs →
  convex_hull_inter lib Q y h k
  = Run (cs ++ calls (lp_stage lib N k hs)) (result (lp_stage lib N k hs)).
Proof.
  intros (Hv & all_hs & Hloop & ->).
  rewrite (convex_hull_inter_validated lib _ _ N) by done.
  rewrite (bind_Return _ _ (inr all_hs)) by by rewrite Hloop.
  by rewrite Hloop.
Qed.

(** On validated input the loop either returns [0.0] or hands a stacked
    system to the linear program. *)
Lemma loop_outcome Q y N h k :
  validated Q y N →
  (∃ cs, convex_hull_inter lib Q y h k = Run cs (Return 0)) ∨
  (∃ cs hs, hulls_built lib Q y N cs hs).
Proof.
  intros Hv. pose proof Hv as (rows & ys & -> & -> & Hlen & _).
  pose proof (hull_stage_sound lib N rows ys N (np_unique (Arr1 ys)) [] Hlen)
    as [[v Hres] _].
  destruct v as [v|all_hs].
  - left. rewrite (convex_hull_inter_validated lib _ _ N) by done.
    rewrite (bind_Return _ _ _ Hres). cbn [calls result ret].
    apply hull_stage_inl in Hres as ->; [|done]. by eexists.
  - right. destruct (hull_stage _ _ _ _ _ _) as [cs r] eqn:E. simpl in Hres.
    exists cs, (concat all_hs). split; [done|]. exists all_hs. split; [|done].
    by rewrite E, Hres.
Qed.

(** The result of the stages after the loop, as one case analysis. *)
Lemma lp_stage_result N k hs :
  result (lp_stage lib N k hs) =
  match solve_lp lib N hs with
  | Raise e => Raise e
  | Return res =>
      if negb (res_success res) || float_gt (res_fun res) (- fl 1e-9)
      then Return 0
      else
        match HalfspaceIntersection lib hs (drop_last (res_x res)) with
        | Raise _ => Return 0
        | Return h_intersection =>
            if (length (intersections h_intersection) <? N + 1)%nat
            then Return 0
            else
              match ConvexHull lib (Arr2 N (intersections h_intersection)) "QJ" with
              | Return final_hull => Return (volume final_hull * (1 - k))
              | Raise _ => Return 0
              end
        end
  end.
Proof.
  rewrite lp_stage_eq. destruct (solve_lp lib N hs) as [res|e]; [|done].
  destruct (negb (res_success res) || float_gt (res_fun res) (- fl 1e-9)); [done|].
  cbn [result]. rewrite vertex_stage_eq.
  destruct (HalfspaceIntersection lib hs _) as [hi|e]; [|done]. cbn [result].
  destruct (length (intersections hi) <? N + 1)%nat eqn:E.
  - apply Nat.ltb_lt in E. by rewrite volume_stage_few.
  - apply Nat.ltb_ge in E. by rewrite volume_stage_enough.
Qed.

Lemma float_gt_true a b : float_gt a b = true ↔ b < a.
Proof. unfold float_gt. apply bool_decide_eq_true. Qed.

Lemma float_gt_false a b : float_gt a b = false ↔ a ≤ b.
Proof.
  unfold float_gt. rewrite bool_decide_eq_false. symmetry. apply Qcle_ngt.
Qed.

Lemma lp_gate_closed res :
  res_success res = false ∨ - fl 1e-9 < res_fun res →
  negb (res_success res) || float_gt (res_fun res) (- fl 1e-9) = true.
Proof.
  intros [->|H]; [done|].
  apply float_gt_true in H. rewrite H. by destruct (res_success res).
Qed.

Lemma lp_gate_open res :
  res_success res = true → res_fun res ≤ - fl 1e-9 →
  negb (res_success res) || float_gt (res_fun res) (- fl 1e-9) = false.
Proof. intros -> H. apply float_gt_false in H. by rewrite H. Qed.

(** An exception reaches the caller exactly when the [linprog] call of
    line 95 raises it. *)
Lemma exception_escapes_iff Q y h k e :
  result (convex_hull_inter lib Q y h k) = Raise e ↔
  ∃ N cs hs, hulls_built lib Q y N cs hs ∧ solve_lp lib N hs = Raise e.
Proof.
  split.
  - intros Hraise.
    destruct (validated_or_rejected Q y) as [[N Hv]|Hrej].
    + destruct (loop_outcome Q y N h k Hv) as [[cs Hz]|(cs & hs & Hb)].
      { rewrite Hz in Hraise. discriminate. }
      exists N, cs, hs. split; [done|].
      rewrite (reach_lp _ _ _ _ _ _ _ Hb) in Hraise. cbn [result] in Hraise.
      rewrite lp_stage_result in Hraise.
      destruct (solve_lp lib N hs) as [res|e']; [|congruence].
      destruct (negb _ || _); [discriminate|].
      destruct (HalfspaceIntersection lib hs _) as [hi|?]; [|discriminate].
      destruct (_ <? _)%nat; [discriminate|].
      destruct (ConvexHull lib _ _); discriminate.
    + rewrite convex_hull_inter_rejected in Hraise by done. discriminate.
  - intros (N & cs & hs & Hb & Hlp).
    rewrite (reach_lp _ _ _ _ _ _ _ Hb). cbn [result].
    by rewrite lp_stage_result, Hlp.
Qed.

(** Every returned value is [0.0] or a hull volume times [1 - factor_k]. *)
Lemma returned_value Q y h k v :
  result (convex_hull_inter lib Q y h k) = Return v →
  v = 0 ∨ ∃ points final_hull,
            ConvexHull lib points "QJ" = Return final_hull ∧
            v = volume final_hull * (1 - k).
Proof.
  intros Hret.
  destruct (validated_or_rejected Q y) as [[N Hv]|Hrej].
  - destruct (loop_outcome Q y N h k Hv) as [[cs Hz]|(cs & hs & Hb)].
    { rewrite Hz in Hret. left. by injection Hret. }
    rewrite (reach_lp _ _ _ _ _ _ _ Hb) in Hret. cbn [result] in Hret.
    rewrite lp_stage_result in Hret.
    destruct (solve_lp lib N hs) as [res|e']; [|discriminate].
    destruct (negb _ || _); [left; by injection Hret|].
    destruct (HalfspaceIntersection lib hs _) as [hi|?]; [|left; by injection Hret].
    destruct (_ <? _)%nat; [left; by injection Hret|].
    destruct (ConvexHull lib _ _) as [fh|?] eqn:E; [|left; by injection Hret].
    right. exists (Arr2 N (intersections hi)), fh. split; [done|]. by injection Hret.
  - rewrite convex_hull_inter_rejected in Hret by done. left. by injection Hret.
Qed.

End Results.

(** ** Facts about floats and about the reference library *)


Lemma one_minus_02 : 1 - fl 0.2 = fl 0.8.
Proof. apply Qc_is_canon. reflexivity. Qed.

Lemma one_minus_05 : 1 - fl 0.5 = fl 0.5.
Proof. apply Qc_is_canon. reflexivity. Qed.

Lemma fl_05_nonzero : fl 0.5 ≠ 0.
Proof. intros H. apply Q2Qc_eq_iff in H. discriminate. Qed.

Lemma Rect_volume_nonneg points opts hl :
  Rect.ConvexHull points opts = Return hl → 0 ≤ volume hl.
Proof.
  unfold Rect.ConvexHull.
  destruct points as [?|?|n rows|? ? ? ?]; try discriminate.
  destruct n as [|[|[|n]]]; try discriminate.
  destruct (Rect.minimum _) as [x0|]; [|discriminate].
  destruct (Rect.maximum _) as [x1|]; [|discriminate].
  destruct (Rect.minimum _) as [y0|]; [|discriminate].
  destruct (Rect.maximum _) as [y1|]; [|discriminate].
  destruct (bool_decide (x0 < x1)) eqn:Hx; [|discriminate].
  destruct (bool_decide (y0 < y1)) eqn:Hy; [|discriminate].
  destruct (forallb _ _); [|discriminate].
  intros [= <-]. cbn [volume].
  apply bool_decide_eq_true in Hx, Hy.
  apply Qclt_le_weak, Qcle_minus_iff in Hx, Hy.
  rewrite <- (Qcmult_0_l (y1 - y0)). by apply Qcmult_le_compat_r.
Qed.

(** ** Claims about the stages after the loop *)

(** C1 (code defect): the [linprog] call of line 95 is the one library
    call outside any [try]; when it raises, the exception reaches the
    caller instead of becoming [0.0].  Here the function is run on two
    overlapping unit squares with a solver that raises [ValueError]. *)
Theorem C1_linprog_exception_reaches_caller :
  result (convex_hull_inter raising_lib (Rect.squares (fl 0.5)) Rect.labels 0 0)
  = Raise ValueError.
Proof. vm_compute. reflexivity. Qed.

(** C2: on the success path the returned value is the volume of the hull of
    the enumerated vertices times [1 - factor_k]; hence the results for
    [factor_k = 0.2] and [factor_k = 0.5] stand in the ratio [0.8 / 0.5]. *)
Theorem C2_volume_scaled_by_one_minus_factor_k (lib : scipy)
    (Q : ndarray float) (y : ndarray Z) (N : nat)
    (vertices : list (list float)) (final_hull : hull) (factor_h : float) :
  success_path lib Q y N vertices final_hull →
  (∀ factor_k,
     result (convex_hull_inter lib Q y factor_h factor_k)
     = Return (volume final_hull * (1 - factor_k))) ∧
  ∃ r2 r5,
    result (convex_hull_inter lib Q y factor_h (fl 0.2)) = Return r2 ∧
    result (convex_hull_inter lib Q y factor_h (fl 0.5)) = Return r5 ∧
    r2 * fl 0.5 = r5 * fl 0.8 ∧
    (volume final_hull ≠ 0 → r2 / r5 = fl 0.8 / fl 0.5).
Proof.
  intros (cs & hs & res & hi & Hb & Hlp & Hs & Hf & Hhi & -> & Hn & Hfh).
  assert (Hall : ∀ k, result (convex_hull_inter lib Q y factor_h k)
                      = Return (volume final_hull * (1 - k))).
  { intros k. rewrite (reach_lp _ _ _ _ _ _ _ _ Hb). cbn [result].
    rewrite lp_stage_result, Hlp, (lp_gate_open _ Hs Hf), Hhi.
    apply Nat.ltb_ge in Hn. by rewrite Hn, Hfh. }
  split; [done|].
  exists (volume final_hull * (1 - fl 0.2)), (volume final_hull * (1 - fl 0.5)).
  split; [done|]. split; [done|].
  rewrite one_minus_02, one_minus_05. split; [ring|].
  intros HV. field. split; [apply fl_05_nonzero | done].
Qed.

(** The running example: two unit squares overlapping in
    [[0.5,1] x [0,1]], evaluated with the reference library. *)
Lemma example_validated dx : validated (Rect.squares dx) Rect.labels 2.
Proof.
  eexists _, _. split; [reflexivity|]. split; [reflexivity|].
  split; [reflexivity|]. split; [vm_compute; lia | vm_compute; lia].
Qed.

Lemma example_hulls_built :
  hulls_built Rect.lib (Rect.squares (fl 0.5)) Rect.labels 2
    (Rect.class_calls (fl 0.5)) (Rect.stacked (fl 0.5)).
Proof.
  split; [apply example_validated|].
  eexists. split; [vm_compute; reflexivity | vm_compute; reflexivity].
Qed.

Lemma example_success_path :
  success_path Rect.lib (Rect.squares (fl 0.5)) Rect.labels 2
    (Rect.rect_vertices (fl 0.5) 1 0 1)
    (Hull (Rect.rect_equations (fl 0.5) 1 0 1) ((1 - fl 0.5) * (1 - 0))).
Proof.
  eexists _, _, _, _. split; [exact example_hulls_built|].
  split; [vm_compute; reflexivity|].
  split; [reflexivity|]. split; [by vm_compute|].
  split; [vm_compute; reflexivity|]. split; [vm_compute; reflexivity|].
  split; [simpl; lia | vm_compute; reflexivity].
Qed.

Lemma C2_witness :
  success_path Rect.lib (Rect.squares (fl 0.5)) Rect.labels 2
    (Rect.rect_vertices (fl 0.5) 1 0 1)
    (Hull (Rect.rect_equations (fl 0.5) 1 0 1) ((1 - fl 0.5) * (1 - 0))) ∧
  ∀ factor_k,
    result (convex_hull_inter Rect.lib (Rect.squares (fl 0.5)) Rect.labels 0 factor_k)
    = Return ((1 - fl 0.5) * (1 - 0) * (1 - factor_k)).
Proof.
  split; [exact example_success_path|].
  exact (proj1 (C2_volume_scaled_by_one_minus_factor_k Rect.lib _ _ _ _ _ 0
                  example_success_path)).
Defined.

Lemma vertex_stage_first_call (lib : scipy) N k hs p :
  ∃ rest, calls (vertex_stage lib N k hs p) = CallHalfspaceIntersection hs p :: rest.
Proof.
  rewrite vertex_stage_eq.
  destruct (HalfspaceIntersection lib hs p); by eexists.
Qed.

(** C5, amended: once the half-space system is stacked and [linprog]
    returns, the call ends with [0.0] when the solver does not report
    success or [res.fun > -1e-9] (optimal slack below the tolerance); when
    the solver succeeds with [res.fun <= -1e-9] (slack at or above the
    tolerance) the next step is the vertex enumeration, seeded with
    [res.x] without its last entry. *)
Theorem C5_lp_gate (lib : scipy) (Q : ndarray float) (y : ndarray Z) (N : nat)
    (cs : list call) (hs : list (list float)) (res : OptimizeResult)
    (factor_h factor_k : float) :
  hulls_built lib Q y N cs hs →
  solve_lp lib N hs = Return res →
  (res_success res = false ∨ - fl 1e-9 < res_fun res →
     convex_hull_inter lib Q y factor_h factor_k
     = Run (cs ++ [lp_call N hs]) (Return 0)) ∧
  (res_success res = true ∧ res_fun res ≤ - fl 1e-9 →
     ∃ rest,
       convex_hull_inter lib Q y factor_h factor_k
       = Run (cs ++ lp_call N hs
                 :: CallHalfspaceIntersection hs (drop_last (res_x res)) :: rest)
             (result (vertex_stage lib N factor_k hs (drop_last (res_x res))))).
Proof.
  intros Hb Hlp. rewrite (reach_lp _ _ _ _ _ _ _ _ Hb), lp_stage_eq, Hlp.
  split.
  - intros Hclosed. by rewrite (lp_gate_closed _ Hclosed).
  - intros [Hs Hf]. rewrite (lp_gate_open _ Hs Hf). cbn [calls result].
    destruct (vertex_stage_first_call lib N factor_k hs (drop_last (res_x res)))
      as [rest ->].
    by exists rest.
Qed.

Lemma C5_witness :
  hulls_built Rect.lib (Rect.squares (fl 0.5)) Rect.labels 2
    (Rect.class_calls (fl 0.5)) (Rect.stacked (fl 0.5)) ∧
  ∃ rest,
    convex_hull_inter Rect.lib (Rect.squares (fl 0.5)) Rect.labels 0 0
    = Run (Rect.class_calls (fl 0.5) ++ lp_call 2 (Rect.stacked (fl 0.5))
             :: CallHalfspaceIntersection (Rect.stacked (fl 0.5))
                  [(fl 0.5 + 1) / 2; (0 + 1) / 2] :: rest)
          (Return ((1 - fl 0.5) * (1 - 0) * (1 - 0))).
Proof.
  split; [exact example_hulls_built|].
  destruct (C5_lp_gate Rect.lib _ _ _ _ _
              (OptResult true (- Rect.fmin ((1 - fl 0.5) / 2) ((1 - 0) / 2))
                 [(fl 0.5 + 1) / 2; (0 + 1) / 2;
                  Rect.fmin ((1 - fl 0.5) / 2) ((1 - 0) / 2)])
              0 0 example_hulls_built) as [_ Hopen].
  { vm_compute. reflexivity. }
  destruct Hopen as [rest Hrun].
  { split; [reflexivity | by vm_compute]. }
  exists rest. rewrite Hrun. f_equal.
Defined.

(** C5, as stated, fails at the boundary: with an optimal slack of exactly
    [1e-9] (not strictly above the tolerance) the solver's result passes
    the guard and a non-zero volume is returned. *)
Lemma C5_counterexample_slack_at_tolerance :
  ∃ res v,
    hulls_built Rect.lib (Rect.squares (1 - fl 2e-9)) Rect.labels 2
      (Rect.class_calls (1 - fl 2e-9)) (Rect.stacked (1 - fl 2e-9)) ∧
    solve_lp Rect.lib 2 (Rect.stacked (1 - fl 2e-9)) = Return res ∧
    res_success res = true ∧
    - res_fun res = fl 1e-9 ∧
    result (convex_hull_inter Rect.lib (Rect.squares (1 - fl 2e-9)) Rect.labels 0 0)
      = Return v ∧
    0 < v.
Proof.
  eexists _, _. split.
  { split; [apply example_validated|].
    eexists. split; [vm_compute; reflexivity | vm_compute; reflexivity]. }
  split; [vm_compute; reflexivity|].
  split; [reflexivity|].
  split; [apply Qc_is_canon; reflexivity|].
  split; [vm_compute; reflexivity | by vm_compute].
Qed.

(** C6, amended: if the vertex enumeration yields fewer than N+1 rows
    (repeated vertices counted as often as they are listed), the call ends
    with [0.0] and its last library call is the enumeration: the final hull
    is not attempted. *)
Theorem C6_few_vertex_rows (lib : scipy) (Q : ndarray float) (y : ndarray Z)
    (N : nat) (cs : list call) (hs : list (list float)) (res : OptimizeResult)
    (h_intersection : halfspace_intersection) (factor_h factor_k : float) :
  hulls_built lib Q y N cs hs →
  solve_lp lib N hs = Return res →
  res_success res = true → res_fun res ≤ - fl 1e-9 →
  HalfspaceIntersection lib hs (drop_last (res_x res)) = Return h_intersection →
  (length (intersections h_intersection) < N + 1)%nat →
  convex_hull_inter lib Q y factor_h factor_k
  = Run (cs ++ [lp_call N hs;
                CallHalfspaceIntersection hs (drop_last (res_x res))])
        (Return 0).
Proof.
  intros Hb Hlp Hs Hf Hhi Hfew.
  rewrite (reach_lp _ _ _ _ _ _ _ _ Hb), lp_stage_eq, Hlp, (lp_gate_open _ Hs Hf).
  rewrite vertex_stage_eq, Hhi. cbn [calls result].
  by rewrite volume_stage_few.
Qed.

Lemma C6_witness :
  convex_hull_inter truncating_lib (Rect.squares (fl 0.5)) Rect.labels 0 0
  = Run (Rect.class_calls (fl 0.5)
           ++ [lp_call 2 (Rect.stacked (fl 0.5));
               CallHalfspaceIntersection (Rect.stacked (fl 0.5))
                 [(fl 0.5 + 1) / 2; (0 + 1) / 2]])
        (Return 0).
Proof.
  refine (C6_few_vertex_rows truncating_lib _ _ 2 _ _
            (OptResult true (- Rect.fmin ((1 - fl 0.5) / 2) ((1 - 0) / 2))
               [(fl 0.5 + 1) / 2; (0 + 1) / 2;
                Rect.fmin ((1 - fl 0.5) / 2) ((1 - 0) / 2)])
            (HsInt (take 2 (Rect.rect_vertices (fl 0.5) 1 0 1))) 0 0 _ _ _ _ _ _).
  - split; [apply example_validated|].
    eexists. split; [vm_compute; reflexivity | vm_compute; reflexivity].
  - vm_compute. reflexivity.
  - reflexivity.
  - by vm_compute.
  - vm_compute. reflexivity.
  - simpl. lia.
Defined.

(** C6, as stated, fails: three rows holding two distinct vertices pass the
    guard [len(intersection_vertices) < N + 1] for N = 2, and the final
    hull is requested on them. *)
Lemma C6_counterexample_repeated_vertex :
  ∃ hs p a b,
    HalfspaceIntersection repeating_lib hs p = Return (HsInt [a; a; b]) ∧
    CallHalfspaceIntersection hs p
      ∈ calls (convex_hull_inter repeating_lib (Rect.squares (fl 0.5)) Rect.labels 0 0) ∧
    (length (remove_dups [a; a; b]) < 2 + 1)%nat ∧
    CallConvexHull (Arr2 2 [a; a; b]) "QJ"
      ∈ calls (convex_hull_inter repeating_lib (Rect.squares (fl 0.5)) Rect.labels 0 0).
Proof.
  exists (Rect.stacked (fl 0.5)), [(fl 0.5 + 1) / 2; (0 + 1) / 2],
         [fl 0.5; 0], [1; 0].
  assert (Hrun :
    calls (convex_hull_inter repeating_lib (Rect.squares (fl 0.5)) Rect.labels 0 0)
    = Rect.class_calls (fl 0.5)
      ++ [lp_call 2 (Rect.stacked (fl 0.5));
          CallHalfspaceIntersection (Rect.stacked (fl 0.5))
            [(fl 0.5 + 1) / 2; (0 + 1) / 2];
          CallConvexHull (Arr2 2 [[fl 0.5; 0]; [fl 0.5; 0]; [1; 0]]) "QJ"])
    by (vm_compute; reflexivity).
  rewrite Hrun. split; [vm_compute; reflexivity|].
  split; [rewrite elem_of_app; right; rewrite !elem_of_cons; tauto|].
  split.
  - cbn [remove_dups].
    destruct (decide_rel (∈) _ [_; _]) as [_|Hn];
      [|exfalso; apply Hn, list_elem_of_here].
    destruct (decide_rel (∈) _ _); simpl; lia.
  - rewrite elem_of_app; right; rewrite !elem_of_cons; tauto.
Qed.




(** ** Reordering the samples *)





Lemma select_zip {A} (l : list A) (ys : list Z) (label : Z) :
  select l (map (λ v, (v =? label)%Z) ys)
  = (filter (λ p, p.2 = label) (zip l ys)).*1.
Proof.
  revert ys. induction l as [|a l IH]; intros [|v ys]; try done.
  cbn [select map zip zip_with]. rewrite filter_cons. cbn [snd].
  destruct (Z.eqb_spec v label) as [->|Hne].
  - rewrite decide_True by done. cbn [fmap list_fmap fst]. f_equal. apply IH.
  - rewrite decide_False by done. apply IH.
Qed.





(** The reference hull engine is order-insensitive. *)
Section Extreme.
Variables (R : relation float) (f : float → float → float).
Hypothesis R_trans : Transitive R.
Hypothesis R_antisym : ∀ a b, R a b → R b a → a = b.
Hypothesis f_choice : ∀ a b, (R a b ∧ f a b = a) ∨ (R b a ∧ f a b = b).




End Extreme.





(** ** Witnesses for the guard claims *)

(** A single class: every label is 1. *)
Lemma C3_witness :
  (∀ a b : Z, a ∈ replicate 8 1%Z → b ∈ replicate 8 1%Z → a = b) ∧
  convex_hull_inter Rect.lib (Rect.squares (fl 0.5)) (Arr1 (replicate 8 1%Z)) 0 0
  = Run [] (Return 0).
Proof.
  assert (H : ∀ a b : Z, a ∈ replicate 8 1%Z → b ∈ replicate 8 1%Z → a = b).
  { intros a b [-> _]%elem_of_replicate [-> _]%elem_of_replicate. reflexivity. }
  split; [exact H|].
  apply (C3_invalid_input_returns_zero Rect.lib (Rect.squares (fl 0.5))
           (Arr1 (replicate 8 1%Z)) 0 0).
  right. right. right. right. exact H.
Defined.


(** ** The store-level function: same result, inputs untouched *)

Lemma volume_stage_result (lib : scipy) N k vs :
  result (volume_stage lib N k vs) =
  if (length vs <? N + 1)%nat then Return 0
  else match ConvexHull lib (Arr2 N vs) "QJ" with
       | Return final_hull => Return (volume final_hull * (1 - k))
       | Raise _ => Return 0
       end.
Proof.
  destruct (length vs <? N + 1)%nat eqn:E.
  - apply Nat.ltb_lt in E. by rewrite volume_stage_few.
  - apply Nat.ltb_ge in E. by rewrite volume_stage_enough.
Qed.

Lemma vertex_stage_result (lib : scipy) N k hs p :
  result (vertex_stage lib N k hs p) =
  match HalfspaceIntersection lib hs p with
  | Return h_intersection =>
      result (volume_stage lib N k (intersections h_intersection))
  | Raise _ => Return 0
  end.
Proof. rewrite vertex_stage_eq. by destruct (HalfspaceIntersection lib hs p). Qed.

Section StoreFacts.
Import Store.

Lemma unchanged_refl n h : (n ≤ length h)%nat → unchanged_below n h h.
Proof. by split. Qed.

Lemma unchanged_trans n h1 h2 h3 :
  unchanged_below n h1 h2 → unchanged_below n h2 h3 → unchanged_below n h1 h3.
Proof. intros [E1 _] [E2 ?]. split; [by rewrite E2|done]. Qed.

Lemma unchanged_alloc n h o :
  (n ≤ length h)%nat → unchanged_below n h (h ++ [o]).
Proof.
  intros Hn. split; [by apply take_app_le|]. rewrite length_app. lia.
Qed.

Lemma unchanged_write n h l o :
  (n ≤ l)%nat → (n ≤ length h)%nat → unchanged_below n h (<[l := o]> h).
Proof.
  intros Hl Hn. split; [by apply take_insert_ge|]. by rewrite length_insert.
Qed.

Lemma unchanged_write_r n h h' l o :
  unchanged_below n h h' → (n ≤ l)%nat → unchanged_below n h (<[l := o]> h').
Proof.
  intros F Hl. eapply unchanged_trans; [exact F|].
  apply unchanged_write; [done | apply F].
Qed.

Lemma unchanged_alloc_r n h h' o :
  unchanged_below n h h' → unchanged_below n h (h' ++ [o]).
Proof.
  intros F. eapply unchanged_trans; [exact F|]. apply unchanged_alloc, F.
Qed.

Lemma unchanged_lookup n h h' l :
  unchanged_below n h h' → (l < n)%nat → h' !! l = h !! l.
Proof.
  intros [E _] Hl.
  by rewrite <- (lookup_take_lt h' n l), <- (lookup_take_lt h n l), E by done.
Qed.

Lemma lookup_fresh (h : store) o : (h ++ [o]) !! length h = Some o.
Proof. by apply list_lookup_middle. Qed.

End StoreFacts.

Section StoreStages.
Import Store.
Variable lib : scipy.
Variable scribble : ndarray float → ndarray float.

Ltac st_unfold :=
  unfold mbind, St_bind, st_bind, mret, St_ret, st_ret, st_lift, st_try,
    load_float, load_int, alloc, write.

Lemma st_ConvexHull_eq h p a opts :
  h !! p = Some (FloatArray a) →
  st_ConvexHull lib scribble p opts h
  = (ConvexHull lib a opts, <[p := FloatArray (scribble a)]> h).
Proof. intros H. unfold st_ConvexHull. by rewrite H. Qed.

Lemma volume_stage_st_ok n N k v vs h :
  h !! v = Some (FloatArray (Arr2 N vs)) →
  (n ≤ v)%nat → (n ≤ length h)%nat →
  ∃ h', volume_stage_st lib scribble N k v h
        = (result (volume_stage lib N k vs), h') ∧
        unchanged_below n h h'.
Proof.
  intros Hv Hnv Hn. rewrite volume_stage_result.
  unfold volume_stage_st. st_unfold. rewrite Hv.
  cbn [shape_at shape lookup list_lookup].
  destruct (length vs <? N + 1)%nat.
  { eexists. split; [done | by apply unchanged_refl]. }
  rewrite (st_ConvexHull_eq _ _ _ _ Hv).
  exists (<[v := FloatArray (scribble (Arr2 N vs))]> h).
  split; [|by apply unchanged_write].
  by destruct (ConvexHull lib (Arr2 N vs) "QJ").
Qed.

Lemma vertex_stage_st_ok n N k hl pl c hs p h :
  h !! hl = Some (FloatArray (Arr2 c hs)) →
  h !! pl = Some (FloatArray (Arr1 p)) →
  (n ≤ hl)%nat → (n ≤ pl)%nat → (n ≤ length h)%nat →
  ∃ h', vertex_stage_st lib scribble N k hl pl h
        = (result (vertex_stage lib N k hs p), h') ∧
        unchanged_below n h h'.
Proof.
  intros Hh Hp Hnh Hnp Hn. rewrite vertex_stage_result.
  unfold vertex_stage_st, st_HalfspaceIntersection. st_unfold.
  rewrite Hh, Hp. cbn [rows_of items_of].
  set (h1 := <[pl := _]> (<[hl := _]> h)).
  assert (F1 : unchanged_below n h h1).
  { eapply unchanged_trans; apply unchanged_write; try done.
    by rewrite length_insert. }
  destruct (HalfspaceIntersection lib hs p) as [hi|e].
  - destruct (volume_stage_st_ok n N k (length h1) (intersections hi)
                (h1 ++ [FloatArray (Arr2 N (intersections hi))]))
      as (h' & -> & F2).
    + apply lookup_fresh.
    + apply F1.
    + rewrite length_app. destruct F1. lia.
    + exists h'. split; [done|].
      eapply unchanged_trans; [exact F1|].
      eapply unchanged_trans; [|exact F2]. apply unchanged_alloc, F1.
  - by exists h1.
Qed.

Lemma unchanged_weaken n m h h' :
  (n ≤ m)%nat → unchanged_below m h h' → unchanged_below n h h'.
Proof.
  intros Hnm [E Hm]. split; [|lia].
  rewrite <- (Nat.min_l n m), <- !take_take by done. by rewrite E.
Qed.

Lemma lp_stage_result_vertex N k hs :
  result (lp_stage lib N k hs) =
  match solve_lp lib N hs with
  | Return res =>
      if negb (res_success res) || float_gt (res_fun res) (- fl 1e-9)
      then Return 0
      else result (vertex_stage lib N k hs (drop_last (res_x res)))
  | Raise e => Raise e
  end.
Proof.
  rewrite lp_stage_eq. destruct (solve_lp lib N hs) as [res|e]; [|done].
  by destruct (negb _ || _).
Qed.

Lemma lp_stage_st_ok n N k hl c hs h :
  h !! hl = Some (FloatArray (Arr2 c hs)) →
  (n ≤ hl)%nat →
  ∃ h', lp_stage_st lib scribble N k hl h
        = (result (lp_stage lib N k hs), h') ∧
        unchanged_below n h h'.
Proof.
  intros Hh Hnh. pose proof (lookup_lt_Some _ _ _ Hh) as Hlt.
  rewrite lp_stage_result_vertex.
  unfold lp_stage_st. st_unfold. rewrite Hh. cbn [rows_of].
  set (bobj := FloatArray (Arr1 (map (λ row, - last_entry row) hs))).
  set (h1 := h ++ [bobj]).
  rewrite (lookup_fresh h1). cbn [items_of].
  set (cobj := FloatArray (Arr1 (set_last (-1) (replicate (N + 1) 0)))).
  set (h3 := <[length h1 := cobj]> (h1 ++ [_])).
  assert (L1 : length h1 = (length h + 1)%nat) by (unfold h1; by rewrite length_app).
  assert (L3 : length h3 = (length h + 2)%nat).
  { unfold h3. rewrite length_insert, length_app, L1. simpl. lia. }
  assert (F3 : unchanged_below (length h) h h3).
  { unfold h3. apply unchanged_write_r; [|lia].
    unfold h1. by apply unchanged_alloc_r, unchanged_alloc. }
  rewrite (unchanged_lookup _ _ _ _ F3 Hlt), Hh. cbn [rows_of].
  set (Aobj := FloatArray (Arr2 (N + 1)
                  (map (λ row, row ++ [1]) (map drop_last hs)))).
  set (h4 := h3 ++ [Aobj]).
  assert (Hc : h4 !! length h1 = Some cobj).
  { unfold h4. rewrite lookup_app_l by lia.
    unfold h3. apply list_lookup_insert_eq. rewrite length_app. simpl. lia. }
  assert (HA : h4 !! length h3 = Some Aobj) by apply lookup_fresh.
  assert (Hb : h4 !! length h = Some bobj).
  { unfold h4. rewrite lookup_app_l by lia.
    unfold h3. rewrite list_lookup_insert_ne by lia.
    rewrite lookup_app_l by lia. apply lookup_fresh. }
  unfold st_linprog. rewrite Hc, HA, Hb. unfold cobj, Aobj, bobj.
  cbn [items_of rows_of].
  set (h5 := <[length h := _]> (<[length h3 := _]> (<[length h1 := _]> h4))).
  assert (L5 : length h5 = (length h + 3)%nat).
  { unfold h5, h4. rewrite !length_insert, length_app, L3. simpl. lia. }
  assert (F5 : unchanged_below (length h) h h5).
  { unfold h5, h4. repeat (apply unchanged_write_r; [|lia]).
    by apply unchanged_alloc_r. }
  change (linprog lib _ _ _ _ _) with (solve_lp lib N hs).
  destruct (solve_lp lib N hs) as [res|e].
  2:{ exists h5. split; [done|]. by apply (unchanged_weaken n (length h)); [lia|]. }
  destruct (negb (res_success res) || float_gt (res_fun res) (- fl 1e-9)).
  { exists h5. split; [done|]. by apply (unchanged_weaken n (length h)); [lia|]. }
  set (h6 := h5 ++ [_]).
  assert (F6 : unchanged_below (length h) h h6).
  { by apply unchanged_alloc_r. }
  destruct (vertex_stage_st_ok n N k hl (length h5) c hs (drop_last (res_x res)) h6)
    as (h' & -> & F').
  - by rewrite (unchanged_lookup _ _ _ _ F6 Hlt).
  - apply lookup_fresh.
  - done.
  - lia.
  - unfold h6. rewrite length_app. lia.
  - exists h'. split; [done|].
    eapply unchanged_trans; [|exact F'].
    by apply (unchanged_weaken n (length h)); [lia|].
Qed.

Lemma hull_stage_st_ok n N rows ys N' labels acc Q y h :
  h !! Q = Some (FloatArray (Arr2 N rows)) →
  h !! y = Some (IntArray (Arr1 ys)) →
  (Q < n)%nat → (y < n)%nat → (n ≤ length h)%nat →
  length rows = length ys →
  ∃ h', hull_stage_st lib scribble Q y N' labels acc h
        = (result (hull_stage lib (Arr2 N rows) (Arr1 ys) N' labels acc), h') ∧
        unchanged_below n h h'.
Proof.
  intros HQ Hy HQn Hyn Hn Hlen. revert acc h HQ Hy Hn.
  induction labels as [|label labels IH]; intros acc h HQ Hy Hn.
  { exists h. split; [done | by apply unchanged_refl]. }
  rewrite hull_stage_cons by done. cbv zeta.
  cbn [hull_stage_st]. st_unfold. rewrite HQ, Hy.
  rewrite getitem_mask_class by done.
  rewrite lookup_fresh. cbn [shape_at shape lookup list_lookup].
  set (pobj := FloatArray (Arr2 N (class_rows rows ys label))).
  destruct (length (class_rows rows ys label) <? N' + 1)%nat.
  { eexists. split; [done | by apply unchanged_alloc]. }
  rewrite (st_ConvexHull_eq _ _ _ _ (lookup_fresh h pobj)).
  set (h2 := <[length h := _]> (h ++ [pobj])).
  assert (F2 : unchanged_below n h h2).
  { unfold h2. apply unchanged_write_r; [by apply unchanged_alloc | done]. }
  destruct (ConvexHull lib _ _) as [hl|e]; cbn [result].
  - destruct (IH (acc ++ [equations hl]) h2) as (h' & -> & F').
    + by rewrite (unchanged_lookup _ _ _ _ F2 HQn).
    + by rewrite (unchanged_lookup _ _ _ _ F2 Hyn).
    + apply F2.
    + exists h'. split; [done | by eapply unchanged_trans].
  - by exists h2.
Qed.

Lemma unchanged_extends h h' :
  unchanged_below (length h) h h' → ∃ fresh, h' = h ++ fresh.
Proof.
  intros [E _]. exists (drop (length h) h').
  rewrite <- (take_drop (length h) h') at 1. by rewrite E, firstn_all.
Qed.

End StoreStages.

(** C10: running the function on a store in which [Q] and [y] are objects
    returns what the value-level function returns on their contents, and
    leaves every object that existed before the call as it was: the store
    only grows by the arrays the call allocated.  This holds whatever the
    library writes into the buffers it is handed. *)
Theorem C10_inputs_not_mutated (lib : scipy)
    (scribble : ndarray float → ndarray float)
    (h : list Store.object) (Q y : nat) (Qv : ndarray float) (yv : ndarray Z)
    (factor_h factor_k : float) :
  h !! Q = Some (Store.FloatArray Qv) →
  h !! y = Some (Store.IntArray yv) →
  ∃ fresh,
    Store.convex_hull_inter_st lib scribble Q y factor_h factor_k h
    = (result (convex_hull_inter lib Qv yv factor_h factor_k), h ++ fresh).
Proof.
  intros HQ Hy.
  pose proof (lookup_lt_Some _ _ _ HQ) as HQlt.
  pose proof (lookup_lt_Some _ _ _ Hy) as Hylt.
  assert (Hstop : ∀ o : outcome float, ∃ fresh, (o, h) = (o, h ++ fresh)).
  { intros o. exists []. by rewrite app_nil_r. }
  unfold Store.convex_hull_inter_st.
  unfold mbind, Store.St_bind, Store.st_bind, mret, Store.St_ret, Store.st_ret,
    Store.st_lift, Store.load_float, Store.load_int, Store.alloc.
  rewrite HQ, Hy.
  destruct (validated_or_rejected Qv yv) as [[N Hv]|Hrej].
  - destruct Hv as (rows & ys & -> & -> & Hlen & Hne & Huniq).
    assert (Hv : validated (Arr2 N rows) (Arr1 ys) N) by by exists rows, ys.
    rewrite (convex_hull_inter_validated lib _ _ N) by done.
    rewrite result_bind.
    cbn [ndim shape length Nat.eqb negb shape_at lookup list_lookup].
    rewrite <- Hlen, Nat.eqb_refl. cbn [negb orb].
    destruct (length rows =? 0)%nat eqn:E; [apply Nat.eqb_eq in E; lia|].
    rewrite Hy.
    destruct (length (np_unique (Arr1 ys)) <? 2)%nat eqn:E2;
      [apply Nat.ltb_lt in E2; lia|].
    destruct (hull_stage_st_ok lib scribble (length h) N rows ys N
                (np_unique (Arr1 ys)) [] Q y h HQ Hy HQlt Hylt (le_n _) Hlen)
      as (h1 & -> & F1).
    assert (Hext : ∀ (o : outcome float) h',
              Store.unchanged_below (length h) h h' →
              ∃ fresh, (o, h') = (o, h ++ fresh)).
    { intros o h' [fresh ->]%unchanged_extends. by exists fresh. }
    destruct (result (hull_stage lib _ _ _ _ _)) as [[v|all_hs]|e].
    + by apply Hext.
    + destruct (lp_stage_st_ok lib scribble (length h) N factor_k (length h1)
                  (N + 1) (concat all_hs)
                  (h1 ++ [Store.FloatArray (Arr2 (N + 1) (concat all_hs))]))
        as (h2 & -> & F2).
      * apply lookup_fresh.
      * apply F1.
      * apply Hext.
        eapply unchanged_trans; [exact F1|].
        eapply unchanged_trans; [|exact F2]. apply unchanged_alloc, F1.
    + by apply Hext.
  - rewrite convex_hull_inter_rejected by done. cbn [result].
    destruct Qv as [?|?|N rows|? ? ? ?]; try apply Hstop.
    destruct yv as [?|ys|? ?|? ? ? ?]; try apply Hstop.
    cbn [ndim shape length Nat.eqb negb shape_at lookup list_lookup].
    destruct (length rows =? length ys)%nat eqn:E1; [|apply Hstop]. cbn [negb orb].
    destruct (length rows =? 0)%nat eqn:E2; [apply Hstop|].
    rewrite Hy.
    destruct (length (np_unique (Arr1 ys)) <? 2)%nat eqn:E3; [apply Hstop|].
    exfalso. apply (Hrej N). exists rows, ys.
    apply Nat.eqb_eq in E1. apply Nat.eqb_neq in E2. apply Nat.ltb_ge in E3.
    done.
Qed.

Lemma C10_witness :
  let h := [Store.FloatArray (Rect.squares (fl 0.5)); Store.IntArray Rect.labels] in
  (h !! 0%nat = Some (Store.FloatArray (Rect.squares (fl 0.5))) ∧
   h !! 1%nat = Some (Store.IntArray Rect.labels)) ∧
  ∃ fresh,
    Store.convex_hull_inter_st Rect.lib (λ _, Arr0 0) 0%nat 1%nat 0 0 h
    = (result (convex_hull_inter Rect.lib (Rect.squares (fl 0.5)) Rect.labels 0 0),
       h ++ fresh).
Proof.
  intros h. split; [by split|].
  exact (C10_inputs_not_mutated Rect.lib (λ _, Arr0 0) h 0%nat 1%nat
           (Rect.squares (fl 0.5)) Rect.labels 0 0 eq_refl eq_refl).
Defined.

(** ** Further properties of [convex_hull_inter] *)

Lemma Rect_linprog_returns c A_ub b_ub bounds method e :
  Rect.linprog c A_ub b_ub bounds method ≠ Raise e.
Proof.
  unfold Rect.linprog. destruct (negb _ || negb _); [done|].
  destruct (Rect.box_of _) as [[[?|] [?|] [?|] [?|]]|]; done.
Qed.

(** X1: with a solver whose call always returns (reporting failure through
    its status), the function always returns a value: exceptions raised by
    [ConvexHull] or [HalfspaceIntersection], at any stage and on any input,
    never reach the caller, and the shape and mask indexing never raises. *)
Theorem X1_returns_when_solver_returns (lib : scipy) (Q : ndarray float)
    (y : ndarray Z) (factor_h factor_k : float) :
  (∀ c A_ub b_ub bounds method e, linprog lib c A_ub b_ub bounds method ≠ Raise e) →
  ∃ v, result (convex_hull_inter lib Q y factor_h factor_k) = Return v.
Proof.
  intros Hlp.
  destruct (result (convex_hull_inter lib Q y factor_h factor_k)) as [v|e] eqn:E;
    [by exists v|].
  apply exception_escapes_iff in E as (N & cs & hs & _ & Hraise).
  by apply Hlp in Hraise.
Qed.

Lemma X1_witness :
  ∃ v, result (convex_hull_inter Rect.lib (Rect.squares (fl 2)) Rect.labels 0 0)
       = Return v.
Proof.
  exact (X1_returns_when_solver_returns Rect.lib (Rect.squares (fl 2))
           Rect.labels 0 0 Rect_linprog_returns).
Defined.

(** X2: a non-zero result is produced only at the end of the chain: if the
    call returns [v ≠ 0], all five gates passed and [v] is the volume of
    the final hull times [1 - factor_k]. *)
Theorem X2_nonzero_only_on_success_path (lib : scipy) (Q : ndarray float)
    (y : ndarray Z) (factor_h factor_k v : float) :
  result (convex_hull_inter lib Q y factor_h factor_k) = Return v →
  v ≠ 0 →
  ∃ N vertices final_hull,
    success_path lib Q y N vertices final_hull ∧
    v = volume final_hull * (1 - factor_k).
Proof.
  intros Hret Hv.
  destruct (validated_or_rejected Q y) as [[N Hval]|Hrej].
  2:{ rewrite convex_hull_inter_rejected in Hret by done. by injection Hret as <-. }
  destruct (loop_outcome lib Q y N factor_h factor_k Hval) as [[cs Hz]|(cs & hs & Hb)].
  { rewrite Hz in Hret. by injection Hret as <-. }
  rewrite (reach_lp _ _ _ _ _ _ _ _ Hb) in Hret. cbn [result] in Hret.
  rewrite lp_stage_result in Hret.
  destruct (solve_lp lib N hs) as [res|e'] eqn:Hlp; [|discriminate].
  destruct (negb (res_success res) || float_gt (res_fun res) (- fl 1e-9)) eqn:Hg;
    [by injection Hret as <-|].
  apply orb_false_iff in Hg as [Hs Hf].
  apply negb_false_iff in Hs. apply float_gt_false in Hf.
  destruct (HalfspaceIntersection lib hs _) as [hi|?] eqn:Hhi;
    [|by injection Hret as <-].
  destruct (_ <? _)%nat eqn:Hn; [by injection Hret as <-|].
  apply Nat.ltb_ge in Hn.
  destruct (ConvexHull lib _ _) as [fh|?] eqn:Hfh; [|by injection Hret as <-].
  injection Hret as <-.
  exists N, (intersections hi), fh. split; [|done].
  by exists cs, hs, res, hi.
Qed.

Lemma X2_witness :
  ∃ N vertices final_hull,
    success_path Rect.lib (Rect.squares (fl 0.5)) Rect.labels N vertices final_hull ∧
    (1 - fl 0.5) * (1 - 0) * (1 - 0) = volume final_hull * (1 - 0).
Proof.
  refine (X2_nonzero_only_on_success_path Rect.lib (Rect.squares (fl 0.5))
            Rect.labels 0 0 ((1 - fl 0.5) * (1 - 0) * (1 - 0)) _ _).
  - vm_compute. reflexivity.
  - intros H. apply (f_equal this) in H. vm_compute in H. discriminate.
Defined.

(** X3: the mirror of the sign claim: when [factor_k >= 1] and the hull
    engine reports non-negative volumes, every returned value is at most
    zero, and it is exactly zero for [factor_k = 1]. *)
Theorem X3_nonpositive_when_factor_k_at_least_1 (lib : scipy)
    (Q : ndarray float) (y : ndarray Z) (factor_h factor_k v : float) :
  (∀ points opts hl, ConvexHull lib points opts = Return hl → 0 ≤ volume hl) →
  1 ≤ factor_k →
  result (convex_hull_inter lib Q y factor_h factor_k) = Return v →
  v ≤ 0 ∧ (factor_k = 1 → v = 0).
Proof.
  intros Hvol Hk Hret.
  destruct (returned_value lib _ _ _ _ _ Hret) as [->|(pts & fh & Hfh & ->)].
  { split; [apply Qcle_refl | done]. }
  split.
  - assert (H1 : 0 ≤ factor_k - 1) by by apply Qcle_minus_iff in Hk.
    apply Qcopp_le_compat in H1.
    replace (- (factor_k - 1)) with (1 - factor_k) in H1 by ring.
    replace (- 0) with 0 in H1 by ring.
    rewrite Qcmult_comm.
    rewrite <- (Qcmult_0_l (volume fh)).
    apply Qcmult_le_compat_r; [done | by eapply Hvol].
  - intros Hone. rewrite Hone. unfold Qcminus.
    by rewrite Qcplus_opp_r, Qcmult_0_r.
Qed.

Lemma X3_witness :
  1 ≤ fl 2 ∧
  ∃ v, result (convex_hull_inter Rect.lib (Rect.squares (fl 0.5)) Rect.labels 0 (fl 2))
       = Return v ∧ v ≤ 0.
Proof.
  assert (Hk : 1 ≤ fl 2) by by vm_compute.
  split; [exact Hk|].
  eexists. split; [vm_compute; reflexivity|].
  refine (proj1 (X3_nonpositive_when_factor_k_at_least_1 Rect.lib
                   (Rect.squares (fl 0.5)) Rect.labels 0 (fl 2) _
                   Rect_volume_nonneg Hk _)).
  vm_compute. reflexivity.
Defined.

Lemma insert_label_sorted v l :
  StronglySorted Z.lt l → StronglySorted Z.lt (insert_label v l).
Proof.
  induction 1 as [|w l Hs IH Hall]; simpl; [by repeat constructor|].
  destruct (Z.compare_spec v w) as [->|Hlt|Hgt].
  - by constructor.
  - constructor; [by constructor|].
    constructor; [done|]. eapply Forall_impl; [exact Hall|]. intros; simpl in *; lia.
  - constructor; [done|].
    apply Forall_forall. intros x Hx. apply elem_of_insert_label in Hx as [->|Hx]; [lia|].
    rewrite Forall_forall in Hall. by apply Hall.
Qed.

Lemma np_unique_sorted y : StronglySorted Z.lt (np_unique y).
Proof.
  unfold np_unique. induction (ravel y) as [|v l IH]; simpl; [constructor|].
  by apply insert_label_sorted.
Qed.

(** What a completed loop did, label by label. *)
Lemma hull_stage_completed (lib : scipy) N rows ys N' labels acc cs all_hs :
  length rows = length ys →
  hull_stage lib (Arr2 N rows) (Arr1 ys) N' labels acc = Run cs (Return (inr all_hs)) →
  ∃ hulls,
    Forall2 (λ label hl,
               ConvexHull lib (Arr2 N (class_rows rows ys label)) "QJ" = Return hl ∧
               (N' + 1 ≤ length (class_rows rows ys label))%nat)
            labels hulls ∧
    cs = map (λ label, CallConvexHull (Arr2 N (class_rows rows ys label)) "QJ") labels ∧
    all_hs = acc ++ map equations hulls.
Proof.
  intros Hlen. revert acc cs.
  induction labels as [|label labels IH]; intros acc cs.
  - simpl. intros [= <- <-]. exists []. by rewrite app_nil_r.
  - rewrite hull_stage_cons by done. cbv zeta.
    destruct (length (class_rows rows ys label) <? N' + 1)%nat eqn:Hn; [discriminate|].
    apply Nat.ltb_ge in Hn.
    destruct (ConvexHull lib _ _) as [hl|e] eqn:Hhl; [|discriminate].
    destruct (hull_stage lib _ _ N' labels _) as [cs' r'] eqn:Hrest. cbn [calls result].
    intros [= <- ->].
    destruct (IH _ _ Hrest) as (hulls & Hall & -> & ->).
    exists (hl :: hulls). split; [by constructor|]. split; [done|].
    by rewrite <- app_assoc.
Qed.

(** X4: when the loop completes, the hull of every class was requested
    exactly once, in strictly ascending label order, each on a class with
    at least N+1 points, and the stacked system is the concatenation of the
    hulls' facet equations in that order. *)
Theorem X4_stacked_system_in_label_order (lib : scipy) (N : nat)
    (rows : list (list float)) (ys : list Z) (cs : list call)
    (hs : list (list float)) :
  hulls_built lib (Arr2 N rows) (Arr1 ys) N cs hs →
  StronglySorted Z.lt (np_unique (Arr1 ys)) ∧
  ∃ hulls,
    Forall2 (λ label hl,
               ConvexHull lib (Arr2 N (class_rows rows ys label)) "QJ" = Return hl ∧
               (N + 1 ≤ length (class_rows rows ys label))%nat)
            (np_unique (Arr1 ys)) hulls ∧
    cs = map (λ label, CallConvexHull (Arr2 N (class_rows rows ys label)) "QJ")
             (np_unique (Arr1 ys)) ∧
    hs = concat (map equations hulls).
Proof.
  intros ((rows' & ys' & HQ & Hy & Hlen & _) & all_hs & Hloop & ->).
  injection HQ as <-. injection Hy as <-.
  split; [apply np_unique_sorted|].
  destruct (hull_stage_completed lib N rows ys N _ [] cs all_hs Hlen Hloop)
    as (hulls & Hall & -> & ->).
  by exists hulls.
Qed.

Lemma X4_witness :
  hulls_built Rect.lib (Rect.squares (fl 0.5)) Rect.labels 2
    (Rect.class_calls (fl 0.5)) (Rect.stacked (fl 0.5)) ∧
  ∃ hulls, Rect.stacked (fl 0.5) = concat (map equations hulls).
Proof.
  split; [exact example_hulls_built|].
  destruct (X4_stacked_system_in_label_order Rect.lib 2 _ _ _ _ example_hulls_built)
    as (_ & hulls & _ & _ & Hhs).
  by exists hulls.
Defined.

Lemma hull_stage_calls_length (lib : scipy) N rows ys N' labels acc :
  length rows = length ys →
  (length (calls (hull_stage lib (Arr2 N rows) (Arr1 ys) N' labels acc))
   ≤ length labels)%nat.
Proof.
  intros Hlen. revert acc. induction labels as [|label labels IH]; intros acc; [done|].
  rewrite hull_stage_cons by done. cbv zeta.
  destruct (_ <? _)%nat; [simpl; lia|].
  destruct (ConvexHull lib _ _); cbn [calls length]; [|lia].
  specialize (IH (acc ++ [equations v])). lia.
Qed.

Lemma hull_stage_joggled (lib : scipy) N rows ys N' labels acc :
  length rows = length ys →
  Forall is_joggled_hull
    (calls (hull_stage lib (Arr2 N rows) (Arr1 ys) N' labels acc)).
Proof.
  intros Hlen.
  destruct (hull_stage_sound lib N rows ys N' labels acc Hlen) as [_ Hcs].
  eapply Forall_impl; [exact Hcs|]. intros c (l & _ & -> & _). by eexists.
Qed.

(** X5: the shape of every run: hull constructions for the classes (at most
    one per distinct label, each with joggling), then at most one linear
    program, then at most one vertex enumeration on the same system, then
    at most one final hull construction, in this order. *)
Theorem X5_call_log_shape (lib : scipy) (Q : ndarray float) (y : ndarray Z)
    (factor_h factor_k : float) :
  ∃ hull_calls tail,
    calls (convex_hull_inter lib Q y factor_h factor_k) = hull_calls ++ tail ∧
    Forall is_joggled_hull hull_calls ∧
    (length hull_calls ≤ length (np_unique y))%nat ∧
    (tail = [] ∨
     (∃ N hs, tail = [lp_call N hs]) ∨
     (∃ N hs p, tail = [lp_call N hs; CallHalfspaceIntersection hs p]) ∨
     (∃ N hs p vs, tail = [lp_call N hs; CallHalfspaceIntersection hs p;
                           CallConvexHull (Arr2 N vs) "QJ"])).
Proof.
  destruct (validated_or_rejected Q y) as [[N Hval]|Hrej].
  2:{ exists [], []. rewrite convex_hull_inter_rejected by done.
      repeat split; [constructor | simpl; lia | by left]. }
  pose proof Hval as (rows & ys & -> & -> & Hlen & _).
  exists (calls (hull_stage lib (Arr2 N rows) (Arr1 ys) N (np_unique (Arr1 ys)) [])).
  rewrite (convex_hull_inter_validated lib _ _ N) by done.
  destruct (hull_stage_sound lib N rows ys N (np_unique (Arr1 ys)) [] Hlen)
    as [[v Hres] _].
  rewrite (bind_Return _ _ _ Hres). cbn [calls].
  eexists. split; [reflexivity|].
  split; [by apply hull_stage_joggled|].
  split; [by apply hull_stage_calls_length|].
  destruct v as [v|all_hs]; [by left|].
  rewrite lp_stage_eq.
  destruct (solve_lp lib N (concat all_hs)) as [res|e];
    [|right; left; by eexists _, _].
  destruct (negb _ || _); [right; left; by eexists _, _|].
  cbn [calls]. rewrite vertex_stage_eq.
  destruct (HalfspaceIntersection lib _ _) as [hi|e];
    [|right; right; left; by eexists _, _, _].
  cbn [calls].
  destruct (decide (length (intersections hi) < N + 1)%nat) as [Hn|Hn].
  - rewrite volume_stage_few by done. right; right; left. by eexists _, _, _.
  - rewrite volume_stage_enough by lia. right; right; right. by eexists _, _, _, _.
Qed.

Lemma hull_stage_raising (lib : scipy) N rows ys N' labels acc label e :
  length rows = length ys →
  label ∈ labels →
  ConvexHull lib (Arr2 N (class_rows rows ys label)) "QJ" = Raise e →
  result (hull_stage lib (Arr2 N rows) (Arr1 ys) N' labels acc) = Return (inl 0).
Proof.
  intros Hlen Hin Hraise. revert acc.
  induction labels as [|l labels IH]; intros acc.
  - by apply elem_of_nil in Hin.
  - rewrite hull_stage_cons by done. cbv zeta.
    destruct (_ <? _)%nat; [done|].
    destruct (decide (l = label)) as [->|Hne].
    + by rewrite Hraise.
    + apply elem_of_cons in Hin as [->|Hin]; [done|].
      destruct (ConvexHull lib (Arr2 N (class_rows rows ys l)) "QJ");
        cbn [result]; [by apply IH | done].
Qed.

(** X6: if the hull construction of some class raises, the call returns
    [0.0] and the only library calls made are hull constructions: the
    linear program and the vertex enumeration are never reached. *)
Theorem X6_class_hull_failure_returns_zero (lib : scipy) (N : nat)
    (rows : list (list float)) (ys : list Z) (factor_h factor_k : float)
    (label : Z) (e : exn) :
  label ∈ ys →
  ConvexHull lib (Arr2 N (class_rows rows ys label)) "QJ" = Raise e →
  result (convex_hull_inter lib (Arr2 N rows) (Arr1 ys) factor_h factor_k)
    = Return 0 ∧
  Forall is_joggled_hull
    (calls (convex_hull_inter lib (Arr2 N rows) (Arr1 ys) factor_h factor_k)).
Proof.
  intros Hin Hraise.
  destruct (validated_dec (Arr2 N rows) (Arr1 ys) N) as [Hv|Hv].
  - rewrite (convex_hull_inter_validated lib _ _ N) by done.
    destruct Hv as (rows' & ys' & HQ & Hy & Hlen & _).
    injection HQ as <-. injection Hy as <-.
    assert (Hu : label ∈ np_unique (Arr1 ys)) by by apply elem_of_unique_labels.
    pose proof (hull_stage_raising lib N rows ys N _ [] label e Hlen Hu Hraise) as Hres.
    rewrite (bind_Return _ _ _ Hres). cbn [calls result ret].
    split; [done|]. rewrite app_nil_r. by apply hull_stage_joggled.
  - assert (Hrej : ∀ N', ¬ validated (Arr2 N rows) (Arr1 ys) N').
    { intros N' Hv'. apply Hv. destruct Hv' as (rows' & ys' & HQ & Hy & H').
      injection HQ as -> ->. injection Hy as ->. by exists rows', ys'. }
    rewrite (convex_hull_inter_rejected lib _ _ _ _ Hrej). cbn [calls result].
    split; [done | constructor].
Qed.

(** Class 1 is a triangle, on which the reference engine reports an error. *)
Lemma X6_witness :
  let rows := [[0; 0]; [fl 0.5; 0]; [1; 0]; [0; 1]; [1; 1]; [fl 0.5; 1];
               [1; fl 0.5]] in
  let ys := [0; 1; 0; 0; 0; 1; 1]%Z in
  (1%Z ∈ ys ∧
   ConvexHull Rect.lib (Arr2 2 (class_rows rows ys 1)) "QJ" = Raise QhullError) ∧
  result (convex_hull_inter Rect.lib (Arr2 2 rows) (Arr1 ys) 0 0) = Return 0.
Proof.
  intros rows ys.
  assert (Hin : 1%Z ∈ ys) by (apply list_elem_of_further, list_elem_of_here).
  assert (Hraise : ConvexHull Rect.lib (Arr2 2 (class_rows rows ys 1)) "QJ"
                   = Raise QhullError) by (vm_compute; reflexivity).
  split; [by split|].
  exact (proj1 (X6_class_hull_failure_returns_zero Rect.lib 2 rows ys 0 0 1
                  QhullError Hin Hraise)).
Defined.

(** X7: if the vertex enumeration raises, the call returns [0.0]; its last
    library call is the enumeration. *)
Theorem X7_enumeration_failure_returns_zero (lib : scipy) (Q : ndarray float)
    (y : ndarray Z) (N : nat) (cs : list call) (hs : list (list float))
    (res : OptimizeResult) (e : exn) (factor_h factor_k : float) :
  hulls_built lib Q y N cs hs →
  solve_lp lib N hs = Return res →
  res_success res = true → res_fun res ≤ - fl 1e-9 →
  HalfspaceIntersection lib hs (drop_last (res_x res)) = Raise e →
  convex_hull_inter lib Q y factor_h factor_k
  = Run (cs ++ [lp_call N hs;
                CallHalfspaceIntersection hs (drop_last (res_x res))])
        (Return 0).
Proof.
  intros Hb Hlp Hs Hf Hhi.
  rewrite (reach_lp _ _ _ _ _ _ _ _ Hb), lp_stage_eq, Hlp, (lp_gate_open _ Hs Hf).
  by rewrite vertex_stage_eq, Hhi.
Qed.

Lemma X7_witness :
  convex_hull_inter failing_enumeration_lib (Rect.squares (fl 0.5)) Rect.labels 0 0
  = Run (Rect.class_calls (fl 0.5)
           ++ [lp_call 2 (Rect.stacked (fl 0.5));
               CallHalfspaceIntersection (Rect.stacked (fl 0.5))
                 [(fl 0.5 + 1) / 2; (0 + 1) / 2]])
        (Return 0).
Proof.
  refine (X7_enumeration_failure_returns_zero failing_enumeration_lib _ _ 2 _ _
            (OptResult true (- Rect.fmin ((1 - fl 0.5) / 2) ((1 - 0) / 2))
               [(fl 0.5 + 1) / 2; (0 + 1) / 2;
                Rect.fmin ((1 - fl 0.5) / 2) ((1 - 0) / 2)])
            QhullError 0 0 _ _ _ _ _).
  - split; [apply example_validated|].
    eexists. split; [vm_compute; reflexivity | vm_compute; reflexivity].
  - vm_compute. reflexivity.
  - reflexivity.
  - by vm_compute.
  - reflexivity.
Defined.

(** X8: if the final hull construction raises, the call returns [0.0]
    after the full sequence of library calls. *)
Theorem X8_final_hull_failure_returns_zero (lib : scipy) (Q : ndarray float)
    (y : ndarray Z) (N : nat) (cs : list call) (hs : list (list float))
    (res : OptimizeResult) (h_intersection : halfspace_intersection) (e : exn)
    (factor_h factor_k : float) :
  hulls_built lib Q y N cs hs →
  solve_lp lib N hs = Return res →
  res_success res = true → res_fun res ≤ - fl 1e-9 →
  HalfspaceIntersection lib hs (drop_last (res_x res)) = Return h_intersection →
  (N + 1 ≤ length (intersections h_intersection))%nat →
  ConvexHull lib (Arr2 N (intersections h_intersection)) "QJ" = Raise e →
  convex_hull_inter lib Q y factor_h factor_k
  = Run (cs ++ [lp_call N hs;
                CallHalfspaceIntersection hs (drop_last (res_x res));
                CallConvexHull (Arr2 N (intersections h_intersection)) "QJ"])
        (Return 0).
Proof.
  intros Hb Hlp Hs Hf Hhi Hn Hfh.
  rewrite (reach_lp _ _ _ _ _ _ _ _ Hb), lp_stage_eq, Hlp, (lp_gate_open _ Hs Hf).
  rewrite vertex_stage_eq, Hhi. cbn [calls result].
  by rewrite volume_stage_enough, Hfh.
Qed.

Lemma X8_witness :
  result (convex_hull_inter repeating_lib (Rect.squares (fl 0.5)) Rect.labels 0 0)
  = Return 0.
Proof.
  refine (f_equal result
    (X8_final_hull_failure_returns_zero repeating_lib _ _ 2
       (Rect.class_calls (fl 0.5)) (Rect.stacked (fl 0.5))
       (OptResult true (- Rect.fmin ((1 - fl 0.5) / 2) ((1 - 0) / 2))
          [(fl 0.5 + 1) / 2; (0 + 1) / 2;
           Rect.fmin ((1 - fl 0.5) / 2) ((1 - 0) / 2)])
       (HsInt [[fl 0.5; 0]; [fl 0.5; 0]; [1; 0]]) QhullError 0 0 _ _ _ _ _ _ _)).
  - split; [apply example_validated|].
    eexists. split; [vm_compute; reflexivity | vm_compute; reflexivity].
  - vm_compute. reflexivity.
  - reflexivity.
  - by vm_compute.
  - vm_compute. reflexivity.
  - simpl. lia.
  - vm_compute. reflexivity.
Defined.

Lemma lp_stage_calls_any_factor (lib : scipy) N k k' hs :
  calls (lp_stage lib N k hs) = calls (lp_stage lib N k' hs).
Proof.
  rewrite !lp_stage_eq. destruct (solve_lp lib N hs) as [res|e]; [|done].
  destruct (negb _ || _); [done|]. cbn [calls]. f_equal.
  rewrite !vertex_stage_eq.
  destruct (HalfspaceIntersection lib hs _) as [hi|e]; [|done]. cbn [calls]. f_equal.
  destruct (decide (length (intersections hi) < N + 1)%nat) as [Hn|Hn].
  - by rewrite !volume_stage_few.
  - by rewrite !volume_stage_enough by lia.
Qed.

(** X9: the scale factors steer no decision: for any two choices of
    [factor_h] and [factor_k] the same library calls are made in the same
    order, and an exception escapes for one choice exactly when it escapes
    for the other. *)
Theorem X9_factors_steer_no_decision (lib : scipy) (Q : ndarray float)
    (y : ndarray Z) (factor_h factor_k factor_h' factor_k' : float) :
  calls (convex_hull_inter lib Q y factor_h factor_k)
  = calls (convex_hull_inter lib Q y factor_h' factor_k') ∧
  ∀ e, result (convex_hull_inter lib Q y factor_h factor_k) = Raise e
       ↔ result (convex_hull_inter lib Q y factor_h' factor_k') = Raise e.
Proof.
  split.
  - destruct (validated_or_rejected Q y) as [[N Hval]|Hrej].
    2:{ by rewrite !convex_hull_inter_rejected. }
    rewrite !(convex_hull_inter_validated lib _ _ N) by done.
    unfold mbind, run_bind, bind.
    destruct (result (hull_stage lib Q y N (np_unique y) [])) as [[v|all_hs]|e];
      cbn [calls]; [done| |done].
    f_equal. apply lp_stage_calls_any_factor.
  - intros e. by rewrite !exception_escapes_iff.
Qed.

Section Relabel.
Variable f : Z → Z.
Hypothesis f_mono : ∀ a b, (a < b)%Z → (f a < f b)%Z.

Lemma relabel_compare a b : (f a ?= f b)%Z = (a ?= b)%Z.
Proof.
  destruct (Z.compare_spec a b) as [->|H|H].
  - apply Z.compare_refl.
  - apply Z.compare_lt_iff. by apply f_mono.
  - apply Z.compare_gt_iff. by apply f_mono.
Qed.

Lemma relabel_eqb a b : (f a =? f b)%Z = (a =? b)%Z.
Proof. by rewrite !Z.eqb_compare, relabel_compare. Qed.

Lemma insert_label_relabel v l :
  insert_label (f v) (map f l) = map f (insert_label v l).
Proof.
  induction l as [|w l IH]; [done|]. cbn [map insert_label].
  rewrite relabel_compare. destruct (v ?= w)%Z; [done|done|].
  cbn [map]. by rewrite IH.
Qed.

Lemma unique_labels_relabel l :
  foldr insert_label [] (map f l) = map f (foldr insert_label [] l).
Proof.
  induction l as [|v l IH]; [done|]. cbn [map foldr].
  by rewrite IH, insert_label_relabel.
Qed.

Lemma eq_mask_relabel ys label :
  eq_mask (Arr1 (map f ys)) (f label) = eq_mask (Arr1 ys) label.
Proof.
  unfold eq_mask. cbn [ravel]. rewrite map_map.
  apply map_ext. intros v. apply relabel_eqb.
Qed.

Lemma hull_stage_relabel (lib : scipy) Q ys N labels acc :
  hull_stage lib Q (Arr1 (map f ys)) N (map f labels) acc
  = hull_stage lib Q (Arr1 ys) N labels acc.
Proof.
  revert acc. induction labels as [|label labels IH]; intros acc; [done|].
  cbn [map hull_stage]. rewrite eq_mask_relabel.
  destruct (getitem_mask Q (eq_mask (Arr1 ys) label)) as [points|e]; [|done].
  rewrite !bind_lift_Return.
  destruct (shape_at points 0) as [n|e]; [|done].
  rewrite !bind_lift_Return.
  destruct (n <? N + 1)%nat; [done|].
  unfold try_except.
  destruct (result (call_ConvexHull lib points "QJ" ≫= _)); by rewrite ?IH.
Qed.

End Relabel.

(** X10: label values matter only through their order: relabelling the
    classes by a strictly increasing map leaves the whole run unchanged
    (same library calls, same result). *)
Theorem X10_order_preserving_relabelling (lib : scipy) (f : Z → Z)
    (Q : ndarray float) (y : ndarray Z) (factor_h factor_k : float) :
  (∀ a b, (a < b)%Z → (f a < f b)%Z) →
  convex_hull_inter lib Q (amap f y) factor_h factor_k
  = convex_hull_inter lib Q y factor_h factor_k.
Proof.
  intros Hf.
  destruct y as [?|ys|? ?|? ? ? ?];
    try (unfold convex_hull_inter; by destruct (negb (ndim Q =? 2)%nat)).
  unfold convex_hull_inter. cbn [amap].
  destruct (negb (ndim Q =? 2)%nat); [done|].
  cbn [ndim shape length Nat.eqb negb].
  replace (shape_at (Arr1 (map f ys)) 0) with (shape_at (Arr1 ys) 0)
    by (unfold shape_at; cbn [shape]; by rewrite length_map).
  unfold np_unique. cbn [ravel].
  rewrite (unique_labels_relabel f Hf), length_map.
  destruct (shape_at Q 0) as [q0|e]; [|done]. rewrite !bind_lift_Return.
  destruct (shape_at (Arr1 ys) 0) as [y0|e]; [|done]. rewrite !bind_lift_Return.
  destruct (negb (q0 =? y0)%nat || (q0 =? 0)%nat); [done|].
  destruct (shape_at Q 1) as [N|e]; [|by rewrite !bind_lift_Raise].
  rewrite !bind_lift_Return.
  destruct (length (foldr insert_label [] ys) <? 2)%nat; [done|].
  by rewrite (hull_stage_relabel f Hf).
Qed.

Lemma X10_witness :
  convex_hull_inter Rect.lib (Rect.squares (fl 0.5))
    (amap (λ v, 2 * v + 3)%Z Rect.labels) 0 0
  = convex_hull_inter Rect.lib (Rect.squares (fl 0.5)) Rect.labels 0 0.
Proof.
  apply (X10_order_preserving_relabelling Rect.lib (λ v, 2 * v + 3)%Z).
  intros a b Hab. lia.
Defined.

(** ** The linear program of lines 83-92 *)

Lemma dot_app u v u' v' :
  length u = length v → dot (u ++ u') (v ++ v') = dot u v + dot u' v'.
Proof.
  revert v. induction u as [|a u IH]; intros [|b v] Hlen; try discriminate.
  - simpl. symmetry. apply Qcplus_0_l.
  - simpl. rewrite IH by (simpl in Hlen; lia). unfold float. ring.
Qed.

Lemma dot_zeros n v : dot (replicate n 0) v = 0.
Proof.
  revert v. induction n as [|n IH]; intros [|b v]; try done.
  simpl. rewrite IH. unfold float. ring.
Qed.

Lemma lp_c_eq N : lp_c N = replicate N 0 ++ [-1].
Proof.
  unfold lp_c, set_last. rewrite length_replicate.
  replace (N + 1 - 1)%nat with (N + 0)%nat by lia.
  rewrite replicate_add. cbn [replicate].
  rewrite <- (length_replicate N (0 : float)) at 1.
  by rewrite insert_app_r.
Qed.

Lemma drop_last_snoc {A} (a : list A) (b : A) : drop_last (a ++ [b]) = a.
Proof.
  unfold drop_last. rewrite length_app. cbn [length].
  replace (length a + 1 - 1)%nat with (length a) by lia.
  apply take_app_length.
Qed.

Lemma last_entry_snoc a b : last_entry (a ++ [b]) = b.
Proof. unfold last_entry. apply last_last. Qed.

(** X11: the objective handed to the solver is [-t]: for a candidate point
    [x] of dimension N and slack [t], [c_lp @ (x, t) = -t], so minimising
    it maximises the slack. *)
Theorem X11_lp_objective_is_minus_slack (N : nat) (x : list float) (t : float) :
  length x = N → dot (lp_c N) (x ++ [t]) = - t.
Proof.
  intros Hlen. rewrite lp_c_eq, dot_app by by rewrite length_replicate.
  rewrite dot_zeros. simpl. unfold float. ring.
Qed.

Lemma X11_witness : dot (lp_c 2) ([fl 0.75; fl 0.5] ++ [fl 0.25]) = - fl 0.25.
Proof. exact (X11_lp_objective_is_minus_slack 2 [fl 0.75; fl 0.5] (fl 0.25) eq_refl). Defined.

(** X12: row [i] of the stacked system, [a.x + b0 <= 0], becomes the solver
    constraint with row [(a, 1)] and bound [-b0]; a point [x] with slack [t]
    satisfies that constraint exactly when [a.x + b0 + t <= 0].  Splitting
    the system into [A] and [b] loses nothing. *)
Theorem X12_lp_constraint_meaning (hs : list (list float)) (i : nat)
    (a : list float) (b0 : float) (x : list float) (t : float) :
  hs !! i = Some (a ++ [b0]) →
  length x = length a →
  lp_A_ub hs !! i = Some (a ++ [1]) ∧
  lp_b_ub hs !! i = Some (- b0) ∧
  (dot (a ++ [1]) (x ++ [t]) ≤ - b0 ↔ dot (a ++ [b0]) (x ++ [1]) + t ≤ 0).
Proof.
  intros Hrow Hlen. unfold lp_A_ub, lp_b_ub.
  rewrite !list_lookup_fmap, Hrow. cbn [fmap option_fmap option_map].
  rewrite drop_last_snoc, last_entry_snoc.
  split; [done|]. split; [done|].
  rewrite !dot_app by done. cbn [dot].
  rewrite (Qcle_minus_iff (dot a x + (1 * t + 0)) (- b0)).
  rewrite (Qcle_minus_iff (dot a x + (b0 * 1 + 0) + t) 0).
  replace (- b0 + - (dot a x + (1 * t + 0)))
    with (0 + - (dot a x + (b0 * 1 + 0) + t)) by (unfold float; ring).
  done.
Qed.

Lemma X12_witness :
  Rect.stacked (fl 0.5) !! 2%nat = Some ([1; 0] ++ [- 1]) ∧
  lp_A_ub (Rect.stacked (fl 0.5)) !! 2%nat = Some ([1; 0] ++ [1]) ∧
  lp_b_ub (Rect.stacked (fl 0.5)) !! 2%nat = Some (- - 1).
Proof.
  assert (Hrow : Rect.stacked (fl 0.5) !! 2%nat = Some ([1; 0] ++ [- 1]))
    by reflexivity.
  split; [exact Hrow|].
  destruct (X12_lp_constraint_meaning (Rect.stacked (fl 0.5)) 2 [1; 0] (- 1)
              [fl 0.75; fl 0.5] (fl 0.25) Hrow eq_refl) as (HA & Hb & _).
  by split.
Defined.

(** ** Partition of the samples into classes *)

Lemma sorted_lt_NoDup l : StronglySorted Z.lt l → NoDup l.
Proof.
  induction 1 as [|x l Hs IH Hall]; constructor; [|done].
  intros Hin. rewrite Forall_forall in Hall. specialize (Hall _ Hin). lia.
Qed.

Lemma buckets_perm {A} (l : list (A * Z)) labels :
  NoDup labels →
  (∀ p, p ∈ l → p.2 ∈ labels) →
  concat (map (λ label, filter (λ p, p.2 = label) l) labels) ≡ₚ l.
Proof.
  intros Hnd. revert l. induction Hnd as [|label labels Hnotin Hnd IH]; intros l Hcover.
  - destruct l as [|p l]; [done|].
    specialize (Hcover p (list_elem_of_here _ _)). by apply elem_of_nil in Hcover.
  - cbn [map concat].
    etrans; [|apply (filter_app_complement (λ p, p.2 = label) l)].
    apply Permutation_app_head.
    rewrite <- (IH (filter (λ p, ¬ p.2 = label) l)).
    + apply reflexive_eq. f_equal. apply map_ext_in. intros lab Hlab.
      rewrite list_filter_filter. apply list_filter_iff. intros p. split; [|tauto].
      intros Hp. split; [done|]. intros Heq. apply Hnotin.
      apply list_elem_of_In in Hlab. congruence.
    + intros p [Hne Hp]%list_elem_of_filter.
      specialize (Hcover p Hp). apply elem_of_cons in Hcover as [?|?]; done.
Qed.

Lemma concat_fmap_fst {A} (ls : list (list (A * Z))) :
  concat (map (fmap fst) ls) = (concat ls).*1.
Proof.
  induction ls as [|l ls IH]; [done|]. cbn [map concat].
  by rewrite fmap_app, IH.
Qed.

Lemma class_rows_sublist rows ys label : class_rows rows ys label `sublist_of` rows.
Proof.
  unfold class_rows. revert ys.
  induction rows as [|r rows IH]; intros [|v ys]; cbn [map select];
    try apply sublist_nil_l.
  destruct (v =? label)%Z; [by apply sublist_skip | by apply sublist_cons].
Qed.

(** X13: the boolean-mask selection partitions the samples: each class
    keeps its rows in their original order, and over the distinct labels the
    classes together hold every row of [Q] exactly once. *)
Theorem X13_classes_partition_the_rows (rows : list (list float)) (ys : list Z) :
  length rows = length ys →
  (∀ label, class_rows rows ys label `sublist_of` rows) ∧
  concat (map (class_rows rows ys) (np_unique (Arr1 ys))) ≡ₚ rows.
Proof.
  intros Hlen. split; [intros label; apply class_rows_sublist|].
  rewrite <- (fst_zip rows ys) at 2 by lia.
  rewrite <- (buckets_perm (zip rows ys) (np_unique (Arr1 ys))).
  - rewrite <- concat_fmap_fst, map_map.
    apply reflexive_eq. f_equal. apply map_ext. intros label. apply select_zip.
  - apply sorted_lt_NoDup, np_unique_sorted.
  - intros [r v] Hp. apply elem_of_unique_labels. cbn [ravel snd].
    apply elem_of_zip_r in Hp. done.
Qed.

Lemma X13_witness :
  let rows := [[0; 0]; [fl 0.5; 0]; [1; 0]] in
  let ys := [4; 7; 4]%Z in
  concat (map (class_rows rows ys) (np_unique (Arr1 ys))) ≡ₚ rows.
Proof.
  intros rows ys.
  exact (proj2 (X13_classes_partition_the_rows rows ys eq_refl)).
Defined.

(** X14: the linear program is well-formed: when every row of the stacked
    system has N+1 entries, the objective has N+1 entries, every constraint
    row has N+1 entries, and there are as many constraint rows and bounds
    as rows in the system. *)
Theorem X14_lp_dimensions (N : nat) (hs : list (list float)) :
  Forall (λ row, length row = (N + 1)%nat) hs →
  length (lp_c N) = (N + 1)%nat ∧
  Forall (λ row, length row = (N + 1)%nat) (lp_A_ub hs) ∧
  length (lp_A_ub hs) = length hs ∧
  length (lp_b_ub hs) = length hs.
Proof.
  intros Hrows. split.
  { rewrite lp_c_eq, length_app, length_replicate. done. }
  split.
  { unfold lp_A_ub. rewrite !Forall_fmap.
    eapply Forall_impl; [exact Hrows|]. intros row Hrow. cbn beta in Hrow. cbn.
    unfold drop_last. rewrite length_app, length_take. cbn [length].
    unfold float in *. lia. }
  unfold lp_A_ub, lp_b_ub. by rewrite !length_map.
Qed.

Lemma X14_witness :
  Forall (λ row, length row = (2 + 1)%nat) (Rect.stacked (fl 0.5)) ∧
  length (lp_A_ub (Rect.stacked (fl 0.5))) = 8%nat.
Proof.
  assert (Hrows : Forall (λ row : list float, length row = (2 + 1)%nat)
                    (Rect.stacked (fl 0.5))) by (repeat constructor).
  split; [exact Hrows|].
  exact (proj1 (proj2 (proj2 (X14_lp_dimensions 2 _ Hrows)))).
Defined.
